(** * Trip lifecycle service (c_triphistory.py): a shallow embedding

    The five FastAPI handlers of [c_triphistory.py] are embedded as
    computations in a state-and-exception monad over a [world] that holds
    the Firebase Realtime Database tree, the requests the client has sent
    to it, what the process has printed, and the clock.

    Data follows the code: records read from the store are loose JSON
    dictionaries ([gmap string json]), not typed records, because the
    handlers access them with [dict.get] and write them with partial
    updates.  Python exceptions are values of [exn]; [try ... except
    Exception] is [try_except].

    The libraries the handlers call (FastAPI, firebase_admin, datetime)
    are modelled at the interface the handlers use.  The database
    answers every request it receives; a request is short, so all the
    readings of the clock within one request give the same instant.

    Three parts of the libraries are modelled on the inputs the service
    is meant for, and the statements that depend on them say so in a
    hypothesis: a booking id is a plain key of the /trips node
    ([plain_key]: the client parses the path f'/trips/{id}', splits it at
    '/' and refuses some characters); the value of a query is a plain
    string ([plain_value]: the client writes it unescaped in the query
    string); and [strptime] is given on ASCII strings ([ascii_date]:
    CPython also takes the other decimal digits of Unicode). *)

From stdpp Require Import gmap strings list fin_maps sorting.
From Stdlib Require Import ZArith Ascii.

#[local] Set Warnings "-register-all,-clear-no-such-hyp".
#[local] Open Scope string_scope.
#[local] Open Scope list_scope.

(** ** JSON values held by the store *)

(** A node of the database tree.  Firebase stores strings, numbers,
    booleans and objects; an absent child is the absence of the key. *)
Inductive json :=
| JStr (s : string)
| JNum (n : Z)
| JBool (b : bool)
| JObj (d : gmap string json).

(** The children of a node; a scalar has none. *)
Definition children (v : json) : gmap string json :=
  match v with
  | JObj d => d
  | _ => ∅
  end.

(** Python truth value of a JSON value ([if x], [not x]). *)
Definition truthy (v : json) : bool :=
  match v with
  | JStr s => negb (String.eqb s "")
  | JNum n => negb (n =? 0)%Z
  | JBool b => b
  | JObj d => negb (bool_decide (d = ∅))
  end.

(** Truth value of a Python value that may be [None]. *)
Definition truthy_opt (v : option json) : bool :=
  match v with
  | None => false
  | Some x => truthy x
  end.

(** [v == s] for a string literal [s]; [None] and non-strings differ
    from every string. *)
Definition eq_str (v : option json) (s : string) : bool :=
  match v with
  | Some (JStr x) => String.eqb x s
  | _ => false
  end.

(** Navigation, partial update and removal in the tree. *)
Fixpoint get_path (p : list string) (v : json) : option json :=
  match p with
  | [] => Some v
  | k :: p' =>
      match children v !! k with
      | Some c => get_path p' c
      | None => None
      end
  end.

(** PATCH: the children named in [upd] are written, the others kept;
    missing ancestors are created. *)
Fixpoint patch_path (p : list string) (upd : gmap string json) (v : json) : json :=
  match p with
  | [] => JObj (upd ∪ children v)
  | k :: p' =>
      JObj (<[k := patch_path p' upd (default (JObj ∅) (children v !! k))]> (children v))
  end.

Fixpoint delete_path (p : list string) (v : json) : json :=
  match p, v with
  | [], _ => JObj ∅
  | [k], JObj d => JObj (delete k d)
  | k :: p', JObj d =>
      match d !! k with
      | Some c => JObj (<[k := delete_path p' c]> d)
      | None => v
      end
  | _, _ => v
  end.

(** ** Exceptions *)

(** [HTTPException] is a subclass of [Exception], as are the built-in
    errors, so [except Exception] catches all of these.  The detail of a
    500 response is the f-string [f"{prefix}{str(e)}"], kept symbolic. *)
Inductive exn :=
| HTTPException (status_code : Z) (detail : fstring)
| ValueError
| TypeError
| AttributeError
with fstring :=
| Lit (s : string)
| StrOf (prefix : string) (e : exn).

(** ** Naive datetimes *)

Record datetime := mkDatetime {
  year : Z; month : Z; day : Z;
  hour : Z; minute : Z; second : Z; microsecond : Z
}.

Definition datetime_fields (t : datetime) : list Z :=
  [year t; month t; day t; hour t; minute t; second t; microsecond t].

Fixpoint lex_ltb (a b : list Z) : bool :=
  match a, b with
  | x :: a', y :: b' => (x <? y)%Z || ((x =? y)%Z && lex_ltb a' b')
  | [], _ :: _ => true
  | _, [] => false
  end.

(** [a < b] on naive datetimes. *)
Definition datetime_ltb (a b : datetime) : bool :=
  lex_ltb (datetime_fields a) (datetime_fields b).

(** The calendar date of a datetime, and [a.date() < b.date()]. *)
Definition date_fields (t : datetime) : list Z := [year t; month t; day t].

Definition date_ltb (a b : datetime) : bool :=
  lex_ltb (date_fields a) (date_fields b).

(** ** The world *)

(** Requests that reach the database. *)
Inductive request :=
| ReqGet (path : list string)
| ReqQuery (path : list string) (order_by : string) (equal_to : string)
| ReqPatch (path : list string) (value : gmap string json)
| ReqDelete (path : list string).

(** Lines written by [print]; the interpolated values are kept as they
    are instead of being formatted. *)
Inductive printed :=
| PInvalidDate (trip_id : string) (date_str : option json) (e : exn)
| PError (label : string) (e : exn).

Record world := mkWorld {
  db : json;                  (* the database tree; trips live under /trips *)
  requests : list request;    (* requests sent so far, oldest first *)
  stdout : list printed;      (* lines printed so far, oldest first *)
  now : datetime;             (* datetime.now(): naive local time *)
  now_ist : string            (* datetime.now(ist).isoformat() *)
}.

(** ** The monad of handlers *)

Inductive outcome (A : Type) :=
| Returns (a : A)
| Raises (e : exn).
Arguments Returns {A} a.
Arguments Raises {A} e.

Definition M (A : Type) : Type := world → outcome A * world.

Definition ret {A} (a : A) : M A := λ w, (Returns a, w).

Definition raise {A} (e : exn) : M A := λ w, (Raises e, w).

Definition bind {A B} (m : M A) (k : A → M B) : M B := λ w,
  match m w with
  | (Returns a, w') => k a w'
  | (Raises e, w') => (Raises e, w')
  end.

(** [try: m except Exception as e: h e].  The effects of [m] before the
    exception stay. *)
Definition try_except {A} (m : M A) (h : exn → M A) : M A := λ w,
  match m w with
  | (Returns a, w') => (Returns a, w')
  | (Raises e, w') => h e w'
  end.

Notation "x <- m ;; k" := (bind m (λ x, k))
  (at level 100, m at next level, right associativity,
   format "'[v' x  <-  m  ;;  '/' k ']'").
Notation "m ;;; k" := (bind m (λ _, k))
  (at level 100, right associativity).

Definition print (line : printed) : M unit := λ w,
  (Returns tt,
   mkWorld (db w) (requests w) (stdout w ++ [line]) (now w) (now_ist w)).

Definition datetime_now : M datetime := λ w, (Returns (now w), w).

Definition datetime_now_ist_isoformat : M string := λ w, (Returns (now_ist w), w).

(** ** The database client (firebase_admin.db)

    The client is modelled at the interface the handlers use: read a
    node, query the children of a node by the value of one of their
    fields, merge fields into a node, remove a node.  The database
    answers every request that is sent; what can fail is the client's
    own check of its argument.  Booking ids are keys of the /trips
    node. *)

(** A Python value that may be [None]. *)
Abbreviation pyval := (option json).

(** The argument handed to [Reference.update]: a dictionary, or a list
    of key-value tuples. *)
Inductive pyarg :=
| PyDict (d : gmap string json)
| PyList (l : list (string * pyval)).

Definition sent (r : request) (w : world) : world :=
  mkWorld (db w) (requests w ++ [r]) (stdout w) (now w) (now_ist w).

Definition stored (v : json) (w : world) : world :=
  mkWorld v (requests w) (stdout w) (now w) (now_ist w).

(** [db.reference(path).get()]: the node, or [None] when there is none. *)
Definition Reference_get (path : list string) : M pyval := λ w,
  (Returns (get_path path (db w)), sent (ReqGet path) w).

(** [db.reference(path).order_by_child(child).equal_to(value).get()]:
    the children whose field [child] is the string [value], as the
    items of the dictionary returned (empty when nothing matches).  Only
    an object has fields, so every item is a dictionary.  The client
    sorts the items by the field and then by key; the field being the
    same for all, they come in the order of their keys, compared as
    Python compares strings. *)
Definition matches (child value : string) (kv : string * json) : bool :=
  eq_str (children kv.2 !! child) value.

Definition key_order (a b : string * json) : Prop := String.leb a.1 b.1.

Definition Query_get (path : list string) (child value : string)
  : M (list (string * gmap string json)) := λ w,
  let node := default (JObj ∅) (get_path path (db w)) in
  (Returns (prod_map id children
              <$> merge_sort key_order
                    (filter (λ kv, matches child value kv) (map_to_list (children node)))),
   sent (ReqQuery path child value) w).

(** [db.reference(path).update(value)]: the client raises [ValueError]
    unless [value] is a non-empty dictionary, and sends nothing then. *)
Definition Reference_update (path : list string) (value : pyarg) : M unit := λ w,
  match value with
  | PyDict d =>
      if bool_decide (d = ∅) then (Raises ValueError, w)
      else (Returns tt, sent (ReqPatch path d) (stored (patch_path path d (db w)) w))
  | PyList _ => (Raises ValueError, w)
  end.

(** [db.reference(path).delete()]. *)
Definition Reference_delete (path : list string) : M unit := λ w,
  (Returns tt, sent (ReqDelete path) (stored (delete_path path (db w)) w)).

(** [v.get(k, dflt)]; [v.get(k)] is [method_get v k None].  Only a
    dictionary has the method. *)
Definition method_get (v : pyval) (k : string) (dflt : pyval) : M pyval :=
  match v with
  | Some (JObj d) =>
      ret (match d !! k with
           | Some x => Some x
           | None => dflt
           end)
  | _ => raise AttributeError
  end.

(** [dict(v)]: a dictionary is copied; a string is iterated and its
    one-character items are not pairs; the other values are not
    iterable. *)
Definition dict (v : pyval) : M (gmap string json) :=
  match v with
  | Some (JObj d) => ret d
  | Some (JStr s) => if String.eqb s "" then ret ∅ else raise ValueError
  | _ => raise TypeError
  end.

(** ** [datetime.strptime(s, '%d/%m/%Y')]

    CPython turns the format into the regular expression
    [(?P<d>3[0-1]|[1-2]\d|0[1-9]|[1-9]| [1-9])/(?P<m>1[0-2]|0[1-9]|[1-9])/(?P<Y>\d\d\d\d)],
    matches it at the start of the string, refuses unconverted trailing
    data, and then builds the date, which checks the year and the day of
    the month.  Strings are byte strings here, so [\d] ranges over the
    ASCII digits: the model is CPython's on ASCII strings; on a string
    with other decimal digits of Unicode CPython's [\d] and [int] accept
    more, and the statements on refused dates are restricted to ASCII
    ([ascii_date]). *)
Module Strptime.

Definition code (c : ascii) : nat := nat_of_ascii c.

Definition char (x c : ascii) : bool := (code c =? code x)%nat.

Definition between (lo hi c : ascii) : bool :=
  (code lo <=? code c)%nat && (code c <=? code hi)%nat.

Definition digit : ascii → bool := between "0" "9".

(** One alternative of a group: a sequence of character classes. *)
Fixpoint take (classes : list (ascii → bool)) (s : string)
  : option (list ascii * string) :=
  match classes with
  | [] => Some ([], s)
  | p :: ps =>
      match s with
      | String c s' =>
          if p c
          then match take ps s' with
               | Some (cs, r) => Some (c :: cs, r)
               | None => None
               end
          else None
      | EmptyString => None
      end
  end.

(** The alternatives of a group that match at the start of [s], in the
    order the regular expression tries them. *)
Definition candidates (group : list (list (ascii → bool))) (s : string)
  : list (list ascii * string) :=
  omap (λ alt, take alt s) group.

Fixpoint first_match {A B} (l : list A) (k : A → option B) : option B :=
  match l with
  | [] => None
  | x :: xs =>
      match k x with
      | Some b => Some b
      | None => first_match xs k
      end
  end.

(** A sequence of groups, matched with backtracking: the texts of the
    groups and what is left of the string. *)
Fixpoint match_groups (groups : list (list (list (ascii → bool)))) (s : string)
  : option (list (list ascii) * string) :=
  match groups with
  | [] => Some ([], s)
  | g :: gs =>
      first_match (candidates g s) (λ '(cs, r),
        match match_groups gs r with
        | Some (texts, rest) => Some (cs :: texts, rest)
        | None => None
        end)
  end.

Definition group_d : list (list (ascii → bool)) :=
  [ [char "3"; between "0" "1"];
    [between "1" "2"; digit];
    [char "0"; between "1" "9"];
    [between "1" "9"];
    [char " "; between "1" "9"] ].

Definition group_m : list (list (ascii → bool)) :=
  [ [char "1"; between "0" "2"];
    [char "0"; between "1" "9"];
    [between "1" "9"] ].

Definition group_Y : list (list (ascii → bool)) :=
  [ [digit; digit; digit; digit] ].

Definition slash : list (list (ascii → bool)) := [ [char "/"] ].

Definition format_regex : list (list (list (ascii → bool))) :=
  [group_d; slash; group_m; slash; group_Y].

(** [int(text)] for the text of a group: digits, after an optional
    blank. *)
Definition int (text : list ascii) : Z :=
  fold_left (λ acc c, if digit c then (acc * 10 + (Z.of_nat (code c) - 48))%Z else acc)
            text 0%Z.

Definition is_leap (y : Z) : bool :=
  ((y mod 4 =? 0)%Z && negb (y mod 100 =? 0)%Z) || (y mod 400 =? 0)%Z.

Definition days_in_month (y m : Z) : Z :=
  if (m =? 2)%Z then (if is_leap y then 29 else 28)%Z
  else if ((m =? 4) || (m =? 6) || (m =? 9) || (m =? 11))%Z then 30%Z
  else 31%Z.

Definition strptime (data_string : string) : outcome datetime :=
  match match_groups format_regex data_string with
  | Some ([d; _; m; _; y], rest) =>
      if negb (String.eqb rest "") then Raises ValueError
      else if (int y <? 1)%Z then Raises ValueError
      else if (days_in_month (int y) (int m) <? int d)%Z then Raises ValueError
      else Returns (mkDatetime (int y) (int m) (int d) 0 0 0 0)
  | _ => Raises ValueError
  end.

End Strptime.

(** [datetime.strptime(date_str, '%d/%m/%Y')] on a Python value: the
    first argument must be a string. *)
Definition strptime_value (date_str : pyval) : outcome datetime :=
  match date_str with
  | Some (JStr s) => Strptime.strptime s
  | _ => Raises TypeError
  end.

Definition datetime_strptime (date_str : pyval) : M datetime := λ w,
  (strptime_value date_str, w).

(** ** The handlers *)

(** Shapes of the responses. *)
Record formatted_status := mkFormattedStatus {
  fs_status : pyval;
  fs_driver_email : pyval;
  fs_driver_name : pyval;
  fs_driver_phone : pyval;
  fs_vehicle_number : pyval;
  fs_assigned_at : pyval;
  fs_completed_at : pyval
}.

Record formatted_trip := mkFormattedTrip {
  ft_booking_id : string;
  ft_customer_email : pyval;
  ft_from_location : pyval;
  ft_to_location : pyval;
  ft_date : pyval;
  ft_created_at : pyval;
  ft_updated_at : pyval;
  ft_status : formatted_status
}.

Record nearby_trip := mkNearbyTrip {
  nt_booking_id : string;
  nt_customer_email : pyval;
  nt_from_location : pyval;
  nt_to_location : pyval;
  nt_date : pyval;
  nt_created_at : pyval
}.

(** [{"message": ...}] *)
Record confirmation := mkConfirmation { message : string }.

(** Body of PUT /edit-trip. *)
Record TripUpdate := mkTripUpdate {
  from_location : string;
  to_location : string;
  date : string
}.

(** [for x in l: body], threading the local variables [s]. *)
Fixpoint for_in {A S} (l : list A) (body : A → S → M S) (s : S) : M S :=
  match l with
  | [] => ret s
  | x :: xs =>
      s' <- body x s ;;
      for_in xs body s'
  end.

(** [not authorization or not authorization.startswith("Bearer ")] *)
Definition unauthorized (authorization : option string) : bool :=
  match authorization with
  | None => true
  | Some a => String.eqb a "" || negb (String.prefix "Bearer " a)
  end.

Definition invalid_authorization : exn :=
  HTTPException 401 (Lit "Invalid or missing authorization header").

(** The node of a trip, and of its status sub-record:
    [f'/trips/{trip_id}'] and its [child('status')].  The client parses
    the path: it splits it at '/', drops the empty segments and refuses
    the characters [ ] . ? # $ with a [ValueError]; for a plain key
    ([plain_key]) the path has the two segments below. *)
Definition trip_path (trip_id : string) : list string := ["trips"; trip_id].

Definition status_path (trip_id : string) : list string := ["trips"; trip_id; "status"].

(** [trip_data.get('status', {}).get(k, dflt)] *)
Definition status_get (trip_data : pyval) (k : string) (dflt : pyval) : M pyval :=
  status <- method_get trip_data "status" (Some (JObj ∅)) ;;
  method_get status k dflt.

(** [booking_date and booking_date < current_date] *)
Definition is_past (booking_date : option datetime) (current_date : datetime) : bool :=
  match booking_date with
  | Some d => datetime_ltb d current_date
  | None => false
  end.

(** The body of the loop of [get_trip_history] (lines 70-105). *)
Definition format_trip (trip_id : string) (trip_data : gmap string json)
    (formatted_trips : list formatted_trip) : M (list formatted_trip) :=
  let date_str := trip_data !! "date" in
  booking_date <-
    try_except
      (if truthy_opt date_str
       then (d <- datetime_strptime date_str ;; ret (Some d))
       else ret None)
      (λ e, print (PInvalidDate trip_id date_str e) ;;; ret None) ;;
  current_date <- datetime_now ;;
  status_val <- status_get (Some (JObj trip_data)) "status" (Some (JStr "pending")) ;;
  trip_data <-
    (if is_past booking_date current_date && eq_str status_val "pending"
     then
       stamp <- datetime_now_ist_isoformat ;;
       Reference_update (status_path trip_id)
         (PyDict (<["status" := JStr "regret"]> (<["updated_at" := JStr stamp]> ∅))) ;;;
       ret (<["status" := JObj (<["status" := JStr "regret"]> ∅)]> trip_data)
     else ret trip_data) ;;
  let trip := Some (JObj trip_data) in
  status <- status_get trip "status" (Some (JStr "pending")) ;;
  driver_email <- status_get trip "driver_email" None ;;
  driver_name <- status_get trip "driver_name" None ;;
  driver_phone <- status_get trip "driver_phone" None ;;
  vehicle_number <- status_get trip "vehicle_number" None ;;
  assigned_at <- status_get trip "assigned_at" None ;;
  completed_at <- status_get trip "completed_at" None ;;
  ret (formatted_trips ++
       [ mkFormattedTrip trip_id
           (trip_data !! "customer_email")
           (trip_data !! "from_location")
           (trip_data !! "to_location")
           (trip_data !! "date")
           (trip_data !! "created_at")
           (trip_data !! "updated_at")
           (mkFormattedStatus status driver_email driver_name driver_phone
              vehicle_number assigned_at completed_at) ]).

(** GET /get-trip-history *)
Definition get_trip_history (email : string) (authorization : option string)
  : M (list formatted_trip) :=
  if unauthorized authorization then raise invalid_authorization else
  try_except
    (customer_trips <- Query_get ["trips"] "customer_email" email ;;
     match customer_trips with
     | [] => ret []
     | _ =>
         for_in customer_trips (λ '(trip_id, trip_data), format_trip trip_id trip_data) []
     end)
    (λ e,
       print (PError "Error in /get-trip-history:" e) ;;;
       raise (HTTPException 500 (StrOf "Failed to fetch trip history: " e))).

(** [all([...])] on optional strings: none is [None] or empty. *)
Definition supplied (x : option string) : bool :=
  match x with
  | Some s => negb (String.eqb s "")
  | None => false
  end.

Definition str_val (x : option string) : pyval := JStr <$> x.

(** POST /update-trip-status *)
Definition update_trip_status (booking_id status : string)
    (driver_email driver_name driver_phone vehicle_number : option string)
    (authorization : option string) : M confirmation :=
  if unauthorized authorization then raise invalid_authorization else
  try_except
    (trip_data <- Reference_get (trip_path booking_id) ;;
     if negb (truthy_opt trip_data)
     then raise (HTTPException 404 (Lit "Trip not found"))
     else
       trip_data_dict <- dict trip_data ;;
       stamp <- datetime_now_ist_isoformat ;;
       let status_update :=
         [("status", Some (JStr status)); ("updated_at", Some (JStr stamp))] in
       status_update <-
         (if String.eqb status "driver_assigned"
          then
            if negb (forallb supplied [driver_email; driver_name; driver_phone; vehicle_number])
            then raise (HTTPException 400 (Lit "Driver details required for assignment"))
            else
              assigned <- datetime_now_ist_isoformat ;;
              ret (status_update ++
                   [("driver_email", str_val driver_email);
                    ("driver_name", str_val driver_name);
                    ("driver_phone", str_val driver_phone);
                    ("vehicle_number", str_val vehicle_number);
                    ("assigned_at", Some (JStr assigned))])
          else if String.eqb status "trip_completed"
          then
            completed <- datetime_now_ist_isoformat ;;
            ret (status_update ++ [("completed_at", Some (JStr completed))])
          else ret status_update) ;;
       let status_update_list := status_update in
       Reference_update (trip_path booking_id) (PyList status_update_list) ;;;
       ret (mkConfirmation "Trip status updated successfully"))
    (λ e,
       print (PError "Error in /update-trip-status:" e) ;;;
       raise (HTTPException 500 (StrOf "Failed to update trip status: " e))).

(** GET /find-nearby-trips.  The reference is taken without a URL, on
    the default database of the app, which is the database the other
    handlers name. *)
Definition find_nearby_trips (from_location date : string)
    (authorization : option string) : M (list nearby_trip) :=
  if unauthorized authorization then raise invalid_authorization else
  try_except
    (trips <- Query_get ["trips"] "date" date ;;
     match trips with
     | [] => ret []
     | _ =>
         for_in trips (λ '(trip_id, trip_data) nearby_trips,
           status <- status_get (Some (JObj trip_data)) "status" None ;;
           if eq_str status "pending"
           then ret (nearby_trips ++
                     [ mkNearbyTrip trip_id
                         (trip_data !! "customer_email")
                         (trip_data !! "from_location")
                         (trip_data !! "to_location")
                         (trip_data !! "date")
                         (trip_data !! "created_at") ])
           else ret nearby_trips) []
     end)
    (λ e, raise (HTTPException 500 (StrOf "Failed to find nearby trips: " e))).

(** PUT /edit-trip/{trip_id} *)
Definition edit_trip (trip_id : string) (update_data : TripUpdate)
    (authorization : option string) : M confirmation :=
  if unauthorized authorization then raise invalid_authorization else
  try_except
    (trip_data <- Reference_get (trip_path trip_id) ;;
     if negb (truthy_opt trip_data)
     then raise (HTTPException 404 (Lit "Trip not found"))
     else
       status <- status_get trip_data "status" None ;;
       if negb (eq_str status "pending")
       then raise (HTTPException 400 (Lit "Can only edit pending trips"))
       else
         stamp <- datetime_now_ist_isoformat ;;
         Reference_update (trip_path trip_id)
           (PyDict (<["from_location" := JStr (from_location update_data)]>
                   (<["to_location" := JStr (to_location update_data)]>
                   (<["date" := JStr (date update_data)]>
                   (<["updated_at" := JStr stamp]> ∅))))) ;;;
         ret (mkConfirmation "Trip updated successfully"))
    (λ e,
       print (PError "Error in /edit-trip:" e) ;;;
       raise (HTTPException 500 (StrOf "Failed to update trip: " e))).

(** DELETE /delete-trip/{trip_id} *)
Definition delete_trip (trip_id : string) (authorization : option string)
  : M confirmation :=
  if unauthorized authorization then raise invalid_authorization else
  try_except
    (trip_data <- Reference_get (trip_path trip_id) ;;
     if negb (truthy_opt trip_data)
     then raise (HTTPException 404 (Lit "Trip not found"))
     else
       status <- status_get trip_data "status" None ;;
       if negb (eq_str status "pending")
       then raise (HTTPException 400 (Lit "Can only delete pending trips"))
       else
         Reference_delete (trip_path trip_id) ;;;
         ret (mkConfirmation "Trip deleted successfully"))
    (λ e,
       print (PError "Error in /delete-trip:" e) ;;;
       raise (HTTPException 500 (StrOf "Failed to delete trip: " e))).

(** ** The router

    The five routes of [router], as one dispatch on the operation. *)
Inductive operation :=
| GetTripHistory (email : string)
| UpdateTripStatus (booking_id status : string)
    (driver_email driver_name driver_phone vehicle_number : option string)
| FindNearbyTrips (from_location date : string)
| EditTrip (trip_id : string) (update_data : TripUpdate)
| DeleteTrip (trip_id : string).

Inductive response :=
| TripList (trips : list formatted_trip)
| NearbyList (trips : list nearby_trip)
| Confirmed (c : confirmation).

Definition fmap_M {A B} (f : A → B) (m : M A) : M B :=
  x <- m ;; ret (f x).

Definition route (op : operation) (authorization : option string) : M response :=
  match op with
  | GetTripHistory email =>
      fmap_M TripList (get_trip_history email authorization)
  | UpdateTripStatus booking_id status driver_email driver_name driver_phone vehicle_number =>
      fmap_M Confirmed
        (update_trip_status booking_id status driver_email driver_name
           driver_phone vehicle_number authorization)
  | FindNearbyTrips from_location date =>
      fmap_M NearbyList (find_nearby_trips from_location date authorization)
  | EditTrip trip_id update_data =>
      fmap_M Confirmed (edit_trip trip_id update_data authorization)
  | DeleteTrip trip_id =>
      fmap_M Confirmed (delete_trip trip_id authorization)
  end.

(** The first request that an authorized call sends. *)
Definition first_request (op : operation) : request :=
  match op with
  | GetTripHistory email => ReqQuery ["trips"] "customer_email" email
  | UpdateTripStatus booking_id _ _ _ _ _ => ReqGet (trip_path booking_id)
  | FindNearbyTrips _ date => ReqQuery ["trips"] "date" date
  | EditTrip trip_id _ => ReqGet (trip_path trip_id)
  | DeleteTrip trip_id => ReqGet (trip_path trip_id)
  end.

(** ** Vocabulary of the statements *)

(** A plain key: not empty, and made of letters, digits, '-' and '_'.
    For such an id the path f'/trips/{id}' parses to the two segments
    of [trip_path]. *)
Definition alphanumeric (c : ascii) : bool :=
  Strptime.between "0" "9" c || Strptime.between "A" "Z" c || Strptime.between "a" "z" c.

Fixpoint all_chars (p : ascii → bool) (s : string) : bool :=
  match s with
  | EmptyString => true
  | String c s' => p c && all_chars p s'
  end.

Definition plain_key (id : string) : bool :=
  negb (String.eqb id "")
  && all_chars (λ c, alphanumeric c || Strptime.char "-" c || Strptime.char "_" c) id.

(** A plain query value: made of letters, digits and the characters
    '@', '.', '_', '-', '/' and ':', none of which is special in a
    query string. *)
Definition plain_value (value : string) : bool :=
  all_chars (λ c, alphanumeric c || Strptime.char "@" c || Strptime.char "." c
                  || Strptime.char "_" c || Strptime.char "-" c
                  || Strptime.char "/" c || Strptime.char ":" c) value.

(** The operation names plain keys and plain values only. *)
Definition plain_operation (op : operation) : bool :=
  match op with
  | GetTripHistory email => plain_value email
  | UpdateTripStatus booking_id _ _ _ _ _ => plain_key booking_id
  | FindNearbyTrips _ date => plain_value date
  | EditTrip trip_id _ => plain_key trip_id
  | DeleteTrip trip_id => plain_key trip_id
  end.

(** The date field, when it is a string, holds ASCII characters only. *)
Definition ascii_date (date_str : pyval) : bool :=
  match date_str with
  | Some (JStr s) => all_chars (λ c, (Strptime.code c <? 128)%nat) s
  | _ => true
  end.

(** Requests are only ever appended. *)
Definition extends (w w' : world) : Prop :=
  ∃ more, requests w' = requests w ++ more.

Definition monotone {A} (m : M A) : Prop := ∀ w, extends w (m w).2.

(** The stored trip with a booking id, and a field of its status
    sub-record, read straight from the tree. *)
Definition stored_trip (w : world) (trip_id : string) : pyval :=
  get_path (trip_path trip_id) (db w).

Definition status_field (trip_data : gmap string json) (k : string) : pyval :=
  get_path ["status"; k] (JObj trip_data).

(** The /trips node as a map from booking ids to trips. *)
Definition trips_of (w : world) : gmap string json :=
  children (default (JObj ∅) (children (db w) !! "trips")).

(** The status sub-record of a trip is absent or is an object. *)
Definition well_formed_status (trip_data : gmap string json) : bool :=
  match trip_data !! "status" with
  | None | Some (JObj _) => true
  | Some _ => false
  end.

(** The date field is handed to [strptime] and refused with [e]: it is
    not empty, and it is either no string or an ASCII string that the
    format does not match. *)
Definition fails_to_parse (date_str : pyval) (e : exn) : Prop :=
  truthy_opt date_str = true ∧
  ascii_date date_str = true ∧
  strptime_value date_str = Raises e.

(** The datetime the handler obtains from the date field, if any. *)
Definition booking_date_of (trip_data : gmap string json) : option datetime :=
  if truthy_opt (trip_data !! "date")
  then match strptime_value (trip_data !! "date") with
       | Returns d => Some d
       | Raises _ => None
       end
  else None.

(** The stored status of a trip, [pending] when there is none. *)
Definition status_or_pending (trip_data : gmap string json) : json :=
  default (JStr "pending") (status_field trip_data "status").

(** The trip is rewritten to regret on this read. *)
Definition due (w : world) (trip_data : gmap string json) : bool :=
  is_past (booking_date_of trip_data) (now w)
  && eq_str (Some (status_or_pending trip_data)) "pending".

(** A trip as get_trip_history reports it from the fields it holds. *)
Definition formatted (trip_id : string) (trip_data : gmap string json) : formatted_trip :=
  mkFormattedTrip trip_id
    (trip_data !! "customer_email")
    (trip_data !! "from_location")
    (trip_data !! "to_location")
    (trip_data !! "date")
    (trip_data !! "created_at")
    (trip_data !! "updated_at")
    (mkFormattedStatus
       (Some (status_or_pending trip_data))
       (status_field trip_data "driver_email")
       (status_field trip_data "driver_name")
       (status_field trip_data "driver_phone")
       (status_field trip_data "vehicle_number")
       (status_field trip_data "assigned_at")
       (status_field trip_data "completed_at")).

(** The local copy of an expired trip: its status is [regret] alone. *)
Definition regretted (trip_data : gmap string json) : gmap string json :=
  <["status" := JObj (<["status" := JStr "regret"]> ∅)]> trip_data.

(** The fields written to the status sub-record of an expired trip. *)
Definition regret_update (w : world) : gmap string json :=
  <["status" := JStr "regret"]> (<["updated_at" := JStr (now_ist w)]> ∅).

(** The effect of one turn of the loop of get_trip_history on the
    response and on the world. *)
Definition reported (w : world) (item : string * gmap string json) : formatted_trip :=
  formatted item.1 (if due w item.2 then regretted item.2 else item.2).

Definition warn (item : string * gmap string json) (w : world) : world :=
  if truthy_opt (item.2 !! "date")
  then match strptime_value (item.2 !! "date") with
       | Returns _ => w
       | Raises e =>
           mkWorld (db w) (requests w)
             (stdout w ++ [PInvalidDate item.1 (item.2 !! "date") e])
             (now w) (now_ist w)
       end
  else w.

Definition expire (item : string * gmap string json) (w : world) : world :=
  if due w item.2
  then sent (ReqPatch (status_path item.1) (regret_update w))
         (stored (patch_path (status_path item.1) (regret_update w) (db w)) w)
  else w.

Definition turn (w : world) (item : string * gmap string json) : world :=
  expire item (warn item w).

(** A trip as find_nearby_trips reports it. *)
Definition summary (item : string * gmap string json) : nearby_trip :=
  mkNearbyTrip item.1
    (item.2 !! "customer_email")
    (item.2 !! "from_location")
    (item.2 !! "to_location")
    (item.2 !! "date")
    (item.2 !! "created_at").

(** The items a query by [child] returns in a world. *)
Definition matching (w : world) (child value : string) : list (string * gmap string json) :=
  prod_map id children
    <$> merge_sort key_order
          (filter (λ kv, matches child value kv) (map_to_list (trips_of w))).

(** The warning that one turn of the loop prints, if any. *)
Definition warnings (item : string * gmap string json) : list printed :=
  if truthy_opt (item.2 !! "date")
  then match strptime_value (item.2 !! "date") with
       | Returns _ => []
       | Raises e => [PInvalidDate item.1 (item.2 !! "date") e]
       end
  else [].

(** The status of the trip is stored, and is [pending]. *)
Definition stored_pending (item : string * gmap string json) : bool :=
  eq_str (status_field item.2 "status") "pending".

(** A line has been printed between two worlds. *)
Definition printed_between (w w' : world) (line : printed) : Prop :=
  ∃ lines, stdout w' = stdout w ++ lines ∧ line ∈ lines.

(** The header is missing or does not carry the Bearer prefix. *)
Definition missing_or_malformed (authorization : option string) : Prop :=
  authorization = None ∨
  ∃ a, authorization = Some a ∧ ¬ ∃ token, a = "Bearer " +:+ token.

(** ** Vocabulary of the further properties *)

(** The fields edit_trip writes to a trip. *)
Definition edit_fields (update_data : TripUpdate) (stamp : string) : gmap string json :=
  <["from_location" := JStr (from_location update_data)]>
  (<["to_location" := JStr (to_location update_data)]>
  (<["date" := JStr (date update_data)]>
  (<["updated_at" := JStr stamp]> ∅))).

(** The PATCH requests one read of the history sends: one for each
    matched trip that is due, in the order of the items. *)
Definition expiry_patches (w : world) (items : list (string * gmap string json))
  : list request :=
  mjoin ((λ item, if due w item.2
                  then [ReqPatch (status_path item.1) (regret_update w)]
                  else []) <$> items).

(** The same store under another clock, with whatever has been sent and
    printed since. *)
Definition same_store (w w' : world) : Prop := db w' = db w.

(** ** A sample database

    Six trips, read on 15 June 2025 at 10:00. *)
Definition sample_trip (email date : string) (status : option (gmap string json)) : json :=
  let fields : gmap string json :=
    <["customer_email" := JStr email]>
    (<["from_location" := JStr "Cuttack"]>
    (<["to_location" := JStr "Puri"]>
    (<["date" := JStr date]>
    (<["created_at" := JStr "2025-06-01T09:00:00+05:30"]> ∅)))) in
  JObj (match status with
        | Some s => <["status" := JObj s]> fields
        | None => fields
        end).

Definition sample_trips : gmap string json :=
  <["b1" := sample_trip "asha@example.in" "15/06/2025"
              (Some (<["status" := JStr "pending"]> ∅))]>
  (<["b2" := sample_trip "asha@example.in" "16/06/2025"
              (Some (<["status" := JStr "driver_assigned"]>
                    (<["driver_name" := JStr "Ravi"]> ∅)))]>
  (<["b3" := sample_trip "asha@example.in" "2025-06-14" None]>
  (<["b4" := sample_trip "bina@example.in" "01/01/2020"
              (Some (<["status" := JStr "trip_completed"]> ∅))]>
  (<["b5" := sample_trip "bina@example.in" "15/06/2025"
              (Some (<["updated_at" := JStr "2025-06-02T08:00:00+05:30"]> ∅))]>
  (<["b6" := sample_trip "asha@example.in" "01/01/2020"
              (Some (<["status" := JStr "pending"]> ∅))]> ∅))))).

Definition sample_world : world :=
  mkWorld (JObj (<["trips" := JObj sample_trips]> ∅)) [] []
    (mkDatetime 2025 6 15 10 0 0 0) "2025-06-15T10:00:00+05:30".

(** ** A second sample: records that are incomplete or malformed

    u1 has an empty date, u2 has none, and the status of u3 is a string
    where a sub-record is expected; u4 is pending, past, and its status
    sub-record names a driver; u5 has a date in another format and a
    string for a status. *)
Definition odd_trips : gmap string json :=
  <["u1" := JObj (<["customer_email" := JStr "chitra@example.in"]>
                 (<["date" := JStr ""]>
                 (<["status" := JObj (<["status" := JStr "pending"]> ∅)]> ∅)))]>
  (<["u2" := JObj (<["customer_email" := JStr "chitra@example.in"]>
                  (<["from_location" := JStr "Puri"]> ∅))]>
  (<["u3" := JObj (<["customer_email" := JStr "deepa@example.in"]>
                  (<["date" := JStr "20/06/2025"]>
                  (<["status" := JStr "pending"]> ∅)))]>
  (<["u4" := JObj (<["customer_email" := JStr "esha@example.in"]>
                  (<["date" := JStr "01/01/2020"]>
                  (<["status" := JObj (<["status" := JStr "pending"]>
                                      (<["driver_name" := JStr "Ravi"]> ∅))]> ∅)))]>
  (<["u5" := JObj (<["customer_email" := JStr "farah@example.in"]>
                  (<["date" := JStr "2025-06-14"]>
                  (<["status" := JStr "pending"]> ∅)))]> ∅)))).

Definition odd_world : world :=
  mkWorld (JObj (<["trips" := JObj odd_trips]> ∅)) [] []
    (mkDatetime 2025 6 15 10 0 0 0) "2025-06-15T10:00:00+05:30".

(** * Properties *)

(** ** strptime on sample dates *)

Example strptime_plain :
  Strptime.strptime "01/01/2020" = Returns (mkDatetime 2020 1 1 0 0 0 0).
Proof. reflexivity. Qed.

Example strptime_short_fields :
  Strptime.strptime "5/6/2025" = Returns (mkDatetime 2025 6 5 0 0 0 0).
Proof. reflexivity. Qed.

Example strptime_iso_refused : Strptime.strptime "2025-06-14" = Raises ValueError.
Proof. reflexivity. Qed.

Example strptime_no_such_day : Strptime.strptime "29/02/2021" = Raises ValueError.
Proof. reflexivity. Qed.

Example strptime_trailing_data : Strptime.strptime "15/06/20255" = Raises ValueError.
Proof. reflexivity. Qed.

(** ** The monad *)

Ltac unfold_M :=
  unfold fmap_M, status_get, method_get, dict, print, datetime_now,
    datetime_now_ist_isoformat, Reference_get, Reference_update,
    Reference_delete, Query_get, bind, ret, raise, try_except in *.

Lemma bind_returns {A B} (m : M A) (k : A → M B) w a w' :
  m w = (Returns a, w') → bind m k w = k a w'.
Proof. intros H. unfold bind. by rewrite H. Qed.

Lemma bind_raises {A B} (m : M A) (k : A → M B) w e w' :
  m w = (Raises e, w') → bind m k w = (Raises e, w').
Proof. intros H. unfold bind. by rewrite H. Qed.

(** A handler that turns every exception into a 500 leaves only two
    outcomes: a result, or a 500. *)
Lemma try_except_500 {A} (m : M A) (h : exn → M A) w :
  (∀ e w1, ∃ d w2, h e w1 = (Raises (HTTPException 500 d), w2)) →
  (∃ a w', try_except m h w = (Returns a, w')) ∨
  (∃ d w', try_except m h w = (Raises (HTTPException 500 d), w')).
Proof.
  intros Hh. unfold try_except.
  destruct (m w) as [[a|e] w1]; [left; eauto|].
  right. destruct (Hh e w1) as (d & w2 & ->). eauto.
Qed.

Lemma extends_refl w : extends w w.
Proof. exists []. by rewrite app_nil_r. Qed.

Lemma extends_trans w1 w2 w3 : extends w1 w2 → extends w2 w3 → extends w1 w3.
Proof.
  intros [m1 H1] [m2 H2]. exists (m1 ++ m2). by rewrite H2, H1, app_assoc.
Qed.

(** ** Authorization *)

Lemma prefix_Bearer a :
  String.prefix "Bearer " a = true ↔ ∃ token, a = "Bearer " +:+ token.
Proof.
  split.
  - intros H.
    do 7 (destruct a as [|[[] [] [] [] [] [] [] []] a]; simpl in H; try discriminate H).
    by exists a.
  - intros [token ->]. by destruct token.
Qed.

(** The check of the code is the check of the specification: the header
    is refused when it is absent or does not start with "Bearer ". *)
Lemma unauthorized_spec authorization :
  unauthorized authorization = true ↔
  authorization = None ∨
  ∃ a, authorization = Some a ∧ ¬ ∃ token, a = "Bearer " +:+ token.
Proof.
  destruct authorization as [a|]; simpl; [|naive_solver].
  rewrite orb_true_iff, negb_true_iff, <- not_true_iff_false, prefix_Bearer.
  split.
  - intros [H| H]; right; exists a; split; auto.
    apply String.eqb_eq in H as ->. intros [token H]. discriminate H.
  - intros [H|(b & [= <-] & H)]; [discriminate H|]. by right.
Qed.

Lemma route_unauthorized op authorization w :
  unauthorized authorization = true →
  route op authorization w = (Raises invalid_authorization, w).
Proof.
  intros H. destruct op; simpl; unfold fmap_M, bind;
    unfold get_trip_history, update_trip_status, find_nearby_trips,
      edit_trip, delete_trip; by rewrite H.
Qed.

(** ** Requests are append-only *)

Lemma monotone_ret {A} (a : A) : monotone (ret a).
Proof. intros w. apply extends_refl. Qed.

Lemma monotone_raise {A} e : monotone (@raise A e).
Proof. intros w. apply extends_refl. Qed.

Lemma monotone_bind {A B} (m : M A) (k : A → M B) :
  monotone m → (∀ a, monotone (k a)) → monotone (bind m k).
Proof.
  intros Hm Hk w. unfold bind. specialize (Hm w).
  destruct (m w) as [[a|e] w1]; simpl in *; [|done].
  eapply extends_trans; [done|apply Hk].
Qed.

Lemma monotone_try_except {A} (m : M A) (h : exn → M A) :
  monotone m → (∀ e, monotone (h e)) → monotone (try_except m h).
Proof.
  intros Hm Hh w. unfold try_except. specialize (Hm w).
  destruct (m w) as [[a|e] w1]; simpl in *; [done|].
  eapply extends_trans; [done|apply Hh].
Qed.

Lemma monotone_for_in {A S} (l : list A) (body : A → S → M S) s :
  (∀ x s', monotone (body x s')) → monotone (for_in l body s).
Proof.
  intros Hb. revert s. induction l as [|x l IH]; intros s; simpl.
  - apply monotone_ret.
  - apply monotone_bind; [apply Hb|apply IH].
Qed.

Lemma monotone_pure {A} (f : world → outcome A) : monotone (λ w, (f w, w)).
Proof. intros w. apply extends_refl. Qed.

Lemma monotone_print line : monotone (print line).
Proof. intros w. exists []. simpl. by rewrite app_nil_r. Qed.

Lemma monotone_Reference_get path : monotone (Reference_get path).
Proof. intros w. by eexists. Qed.

Lemma monotone_Query_get path child value : monotone (Query_get path child value).
Proof. intros w. by eexists. Qed.

Lemma monotone_Reference_update path value : monotone (Reference_update path value).
Proof.
  intros w. unfold Reference_update.
  destruct value; [case_bool_decide|]; simpl; try apply extends_refl. by eexists.
Qed.

Lemma monotone_Reference_delete path : monotone (Reference_delete path).
Proof. intros w. by eexists. Qed.

Lemma monotone_method_get v k dflt : monotone (method_get v k dflt).
Proof. destruct v as [[]|]; simpl; apply monotone_pure. Qed.

Lemma monotone_dict v : monotone (dict v).
Proof. destruct v as [[]|]; simpl; try case_match; apply monotone_pure. Qed.

Lemma monotone_datetime_strptime v : monotone (datetime_strptime v).
Proof. apply monotone_pure. Qed.

Ltac solve_monotone :=
  repeat first
    [ apply monotone_ret | apply monotone_raise | apply monotone_print
    | apply monotone_Reference_get | apply monotone_Query_get
    | apply monotone_Reference_update | apply monotone_Reference_delete
    | apply monotone_method_get | apply monotone_dict
    | apply monotone_datetime_strptime
    | apply (monotone_pure (λ w, Returns (now w)))
    | apply (monotone_pure (λ w, Returns (now_ist w)))
    | apply monotone_for_in; intros [? ?] ?
    | apply monotone_bind; [|intros ?]
    | apply monotone_try_except; [|intros ?]
    | match goal with
      | |- monotone (if ?b then _ else _) => destruct b
      | |- monotone (match ?x with _ => _ end) => destruct x
      end ].

Lemma monotone_format_trip trip_id trip_data acc :
  monotone (format_trip trip_id trip_data acc).
Proof. unfold format_trip, status_get. solve_monotone. Qed.

Lemma sent_then {A B C} (r : request) (f : world → A) (k : A → M B) h (g : B → C) w :
  (∀ a, monotone (k a)) → (∀ e, monotone (h e)) →
  ∃ more,
    requests (fmap_M g (try_except (bind (λ w, (Returns (f w), sent r w)) k) h) w).2
    = requests w ++ r :: more.
Proof.
  intros Hk Hh.
  assert (monotone (fmap_M g (try_except (k (f w)) h))) as Hm.
  { unfold fmap_M. solve_monotone; auto. }
  destruct (Hm (sent r w)) as [more Hmore].
  exists more. revert Hmore. unfold fmap_M, bind, try_except. simpl.
  intros ->. by rewrite <- app_assoc.
Qed.

(** Past the authorization check a call ends with a result or with a
    500, and its first request has been sent. *)
Lemma route_authorized op authorization w :
  unauthorized authorization = false →
  ((∃ r, (route op authorization w).1 = Returns r) ∨
   (∃ d, (route op authorization w).1 = Raises (HTTPException 500 d))) ∧
  ∃ more, requests (route op authorization w).2
          = requests w ++ first_request op :: more.
Proof.
  intros H. split.
  - destruct op; simpl; unfold fmap_M, bind;
      unfold get_trip_history, update_trip_status, find_nearby_trips,
        edit_trip, delete_trip; rewrite H;
      match goal with
      | |- context [try_except ?m ?h w] =>
          destruct (try_except_500 m h w) as [(a & w' & ->)|(d & w' & ->)];
            [intros e w1; unfold print, bind, raise; eauto
            |left; eauto|right; eauto]
      end.
  - destruct op; simpl;
      unfold get_trip_history, update_trip_status, find_nearby_trips,
        edit_trip, delete_trip; rewrite H.
    all: unfold Reference_get, Query_get; eapply sent_then; intros;
      unfold status_get; solve_monotone; apply monotone_format_trip.
Qed.

(** ** The authorization check *)

(** C7. On each of the five operations, a request whose Authorization
    header is missing or does not carry the Bearer prefix is refused
    with 401, and the world is left as it was: no request has been sent
    to the store and nothing is written. *)
Theorem unauthorized_before_store op authorization w :
  missing_or_malformed authorization →
  route op authorization w
  = (Raises (HTTPException 401 (Lit "Invalid or missing authorization header")), w).
Proof.
  intros H. apply route_unauthorized. by apply unauthorized_spec.
Qed.

Lemma unauthorized_before_store_witness :
  missing_or_malformed None ∧
  route (DeleteTrip "b1") None sample_world
  = (Raises (HTTPException 401 (Lit "Invalid or missing authorization header")),
     sample_world).
Proof.
  split; [by left|]. apply unauthorized_before_store. by left.
Defined.

(** C9. On each of the five operations the check answers 401 exactly
    when the header is absent or does not start with the seven
    characters "Bearer "; the header "Bearer " alone, with an empty
    token, passes, and the call goes on to send its first request to the
    store (the operation naming a plain key or a plain value: the
    client refuses some ids before it sends anything). *)
Theorem authorization_check_exact op authorization w :
  ((∃ detail, (route op authorization w).1 = Raises (HTTPException 401 detail))
   ↔ missing_or_malformed authorization) ∧
  String.length "Bearer " = 7%nat ∧
  (∀ detail,
     (route op (Some "Bearer ") w).1 ≠ Raises (HTTPException 401 detail)) ∧
  (plain_operation op = true →
   ∃ more, requests (route op (Some "Bearer ") w).2
           = requests w ++ first_request op :: more).
Proof.
  split; [|split; [done|]].
  - split.
    + intros [detail H]. apply unauthorized_spec.
      destruct (unauthorized authorization) eqn:Hu; [done|].
      destruct (route_authorized op authorization w Hu) as [[[r Hr]|[d Hd]] _];
        rewrite H in *; discriminate.
    + intros H%unauthorized_spec. rewrite (route_unauthorized op authorization w H).
      unfold invalid_authorization. eauto.
  - destruct (route_authorized op (Some "Bearer ") w eq_refl) as [Hout Hreq].
    split; [|done].
    intros detail H. destruct Hout as [[r Hr]|[d Hd]]; rewrite H in *; discriminate.
Qed.

Lemma authorization_check_exact_witness :
  plain_operation (DeleteTrip "b1") = true ∧
  ((∃ detail, (route (DeleteTrip "b1") (Some "Bearer ") sample_world).1
              = Raises (HTTPException 401 detail))
   ↔ missing_or_malformed (Some "Bearer ")) ∧
  String.length "Bearer " = 7%nat ∧
  (∀ detail,
     (route (DeleteTrip "b1") (Some "Bearer ") sample_world).1
     ≠ Raises (HTTPException 401 detail)) ∧
  (plain_operation (DeleteTrip "b1") = true →
   ∃ more, requests (route (DeleteTrip "b1") (Some "Bearer ") sample_world).2
           = requests sample_world ++ first_request (DeleteTrip "b1") :: more).
Proof.
  split; [reflexivity|].
  exact (authorization_check_exact (DeleteTrip "b1") (Some "Bearer ") sample_world).
Defined.

(** ** update_trip_status *)

(** C1. No call of update_trip_status succeeds: the status fields are
    handed to [Reference.update] as a list of tuples, which the client
    refuses, so a call that passes every check still ends with a 500 and
    the database is never written. *)
Theorem update_trip_status_never_succeeds
    booking_id status driver_email driver_name driver_phone vehicle_number
    authorization w :
  ∃ c detail w',
    update_trip_status booking_id status driver_email driver_name
      driver_phone vehicle_number authorization w
    = (Raises (HTTPException c detail), w') ∧
    (c = 401%Z ∨ c = 500%Z) ∧
    db w' = db w ∧
    ∀ path value, ReqPatch path value ∈ requests w' → ReqPatch path value ∈ requests w.
Proof.
  unfold update_trip_status.
  destruct (unauthorized authorization).
  { do 3 eexists. split; [done|]. auto. }
  exists 500%Z. unfold_M.
  assert (∀ path value (l : list request),
    ReqPatch path value ∈ l ++ [ReqGet (trip_path booking_id)] → ReqPatch path value ∈ l) as Hin.
  { intros path value l [H|H]%elem_of_app; [done|].
    apply list_elem_of_singleton in H. discriminate H. }
  set (trip_data := get_path _ _). clearbody trip_data.
  destruct trip_data as [[s| | |d]|]; simpl;
    repeat match goal with
           | |- context [if ?b then _ else _] => destruct b; simpl
           end;
    do 2 eexists; (split; [reflexivity|]); simpl; auto.
Qed.

(** The failing call of C1: an existing trip, a valid header, status
    trip_completed.  The answer is a 500 that wraps the client's
    [ValueError], and the trip is as before. *)
Example update_trip_status_completed_fails :
  let r := update_trip_status "b2" "trip_completed" None None None None
             (Some "Bearer token") sample_world in
  r.1 = Raises (HTTPException 500 (StrOf "Failed to update trip status: " ValueError)) ∧
  requests r.2 = [ReqGet ["trips"; "b2"]] ∧
  stored_trip r.2 "b2" = stored_trip sample_world "b2".
Proof. vm_compute. done. Qed.

(** C3. A booking id that resolves to no trip is answered with a 500
    whose detail embeds the 404: the [HTTPException] raised inside the
    [try] block is caught by its own [except Exception] handler.  The
    id is a plain key, so that the reference is the one to the child
    of /trips with that key. *)
Theorem update_trip_status_missing_trip
    booking_id status driver_email driver_name driver_phone vehicle_number
    authorization w :
  unauthorized authorization = false →
  plain_key booking_id = true →
  stored_trip w booking_id = None →
  ∃ w',
    update_trip_status booking_id status driver_email driver_name
      driver_phone vehicle_number authorization w
    = (Raises (HTTPException 500
                 (StrOf "Failed to update trip status: "
                    (HTTPException 404 (Lit "Trip not found")))), w') ∧
    db w' = db w.
Proof.
  intros Hu _ Hnone. unfold update_trip_status, stored_trip in *.
  rewrite Hu. unfold_M. rewrite Hnone. simpl. eauto.
Qed.

Lemma update_trip_status_missing_trip_witness :
  unauthorized (Some "Bearer token") = false ∧
  plain_key "b9" = true ∧
  stored_trip sample_world "b9" = None ∧
  ∃ w',
    update_trip_status "b9" "trip_completed" None None None None
      (Some "Bearer token") sample_world
    = (Raises (HTTPException 500
                 (StrOf "Failed to update trip status: "
                    (HTTPException 404 (Lit "Trip not found")))), w') ∧
    db w' = db sample_world.
Proof.
  split; [reflexivity|]. split; [reflexivity|]. split; [reflexivity|].
  apply update_trip_status_missing_trip; reflexivity.
Defined.



(** ** Reading the status sub-record *)

Lemma status_field_eq trip_data k :
  status_field trip_data k =
  match trip_data !! "status" with
  | Some c => children c !! k
  | None => None
  end.
Proof.
  unfold status_field. simpl.
  destruct (trip_data !! "status") as [c|]; [|done]. by destruct (children c !! k).
Qed.

Lemma status_field_None trip_data k :
  status_field trip_data k = None ↔
  trip_data !! "status" = None ∨
  ∃ c, trip_data !! "status" = Some c ∧ children c !! k = None.
Proof. rewrite status_field_eq. destruct (trip_data !! "status"); naive_solver. Qed.

Lemma status_field_Some trip_data k v :
  status_field trip_data k = Some v ↔
  ∃ st, trip_data !! "status" = Some (JObj st) ∧ st !! k = Some v.
Proof.
  rewrite status_field_eq. destruct (trip_data !! "status") as [[]|]; simpl;
    try rewrite lookup_empty; naive_solver.
Qed.

(** [trip_data.get('status', {}).get(k, dflt)] reads the stored field,
    and raises when the status of the trip is not a dictionary. *)
Lemma status_get_eq trip_data k dflt w :
  status_get (Some (JObj trip_data)) k dflt w =
  if well_formed_status trip_data
  then (Returns (match status_field trip_data k with
                 | Some x => Some x
                 | None => dflt
                 end), w)
  else (Raises AttributeError, w).
Proof.
  rewrite status_field_eq. unfold well_formed_status. unfold_M. simpl.
  destruct (trip_data !! "status") as [[]|]; simpl; try done.
Qed.

Lemma well_formed_regretted trip_data : well_formed_status (regretted trip_data) = true.
Proof. unfold well_formed_status, regretted. by rewrite lookup_insert_eq. Qed.

(** ** One turn of the loop of get_trip_history *)

Lemma booking_date_eq trip_id trip_data w :
  try_except
    (if truthy_opt (trip_data !! "date")
     then (d <- datetime_strptime (trip_data !! "date") ;; ret (Some d))
     else ret None)
    (λ e, print (PInvalidDate trip_id (trip_data !! "date") e) ;;; ret None) w
  = (Returns (booking_date_of trip_data), warn (trip_id, trip_data) w).
Proof.
  unfold booking_date_of, warn, datetime_strptime. unfold_M. simpl.
  destruct (truthy_opt (trip_data !! "date")); [|done].
  by destruct (strptime_value (trip_data !! "date")).
Qed.

Lemma expiry_write_eq trip_id trip_data w :
  (stamp <- datetime_now_ist_isoformat ;;
   Reference_update (status_path trip_id)
     (PyDict (<["status" := JStr "regret"]> (<["updated_at" := JStr stamp]> ∅))) ;;;
   ret (<["status" := JObj (<["status" := JStr "regret"]> ∅)]> trip_data)) w
  = (Returns (regretted trip_data),
     sent (ReqPatch (status_path trip_id) (regret_update w))
       (stored (patch_path (status_path trip_id) (regret_update w) (db w)) w)).
Proof.
  unfold datetime_now_ist_isoformat, Reference_update, bind, ret.
  by rewrite bool_decide_eq_false_2 by apply insert_non_empty.
Qed.

Lemma formatted_eq trip_id trip_data acc w :
  well_formed_status trip_data = true →
  (let trip := Some (JObj trip_data) in
   status <- status_get trip "status" (Some (JStr "pending")) ;;
   driver_email <- status_get trip "driver_email" None ;;
   driver_name <- status_get trip "driver_name" None ;;
   driver_phone <- status_get trip "driver_phone" None ;;
   vehicle_number <- status_get trip "vehicle_number" None ;;
   assigned_at <- status_get trip "assigned_at" None ;;
   completed_at <- status_get trip "completed_at" None ;;
   ret (acc ++
        [ mkFormattedTrip trip_id
            (trip_data !! "customer_email")
            (trip_data !! "from_location")
            (trip_data !! "to_location")
            (trip_data !! "date")
            (trip_data !! "created_at")
            (trip_data !! "updated_at")
            (mkFormattedStatus status driver_email driver_name driver_phone
               vehicle_number assigned_at completed_at) ])) w
  = (Returns (acc ++ [formatted trip_id trip_data]), w).
Proof.
  intros Hwf. cbv zeta.
  repeat (erewrite (bind_returns (status_get _ _ _) _ w _ w)
            by (rewrite status_get_eq, Hwf; reflexivity)).
  unfold ret, formatted, status_or_pending.
  repeat match goal with
         | |- context [status_field trip_data ?k] => destruct (status_field trip_data k)
         end; reflexivity.
Qed.

Lemma format_trip_eq trip_id trip_data acc w :
  format_trip trip_id trip_data acc w =
  if well_formed_status trip_data
  then (Returns (acc ++ [reported w (trip_id, trip_data)]), turn w (trip_id, trip_data))
  else (Raises AttributeError, warn (trip_id, trip_data) w).
Proof.
  unfold format_trip.
  rewrite (bind_returns _ _ _ _ _ (booking_date_eq trip_id trip_data w)).
  set (w1 := warn (trip_id, trip_data) w).
  assert (now w1 = now w ∧ now_ist w1 = now_ist w) as [Hnow Hist].
  { unfold w1, warn. by repeat case_match. }
  rewrite (bind_returns datetime_now _ w1 (now w) w1) by (unfold datetime_now; by rewrite Hnow).
  unfold bind at 1. rewrite status_get_eq.
  destruct (well_formed_status trip_data) eqn:Hwf; [|done].
  assert (match status_field trip_data "status" with
          | Some x => Some x
          | None => Some (JStr "pending")
          end = Some (status_or_pending trip_data)) as ->.
  { unfold status_or_pending. by destruct (status_field trip_data "status"). }
  fold (due w trip_data).
  unfold turn, expire, reported. cbn [fst snd]. fold w1.
  replace (due w1 trip_data) with (due w trip_data) by (unfold due; by rewrite Hnow).
  destruct (due w trip_data).
  - rewrite (bind_returns _ _ _ _ _ (expiry_write_eq trip_id trip_data w1)).
    apply formatted_eq, well_formed_regretted.
  - unfold bind at 1, ret at 1. by apply formatted_eq.
Qed.

(** ** The /trips node *)

Lemma stored_trip_eq w trip_id : stored_trip w trip_id = trips_of w !! trip_id.
Proof.
  unfold stored_trip, trips_of, trip_path. simpl.
  destruct (children (db w) !! "trips") as [c|]; simpl; [|by rewrite lookup_empty].
  by destruct (children c !! trip_id).
Qed.

Lemma trips_of_patch_status w trip_id upd :
  trips_of (stored (patch_path (status_path trip_id) upd (db w)) w)
  = <[trip_id := patch_path ["status"] upd (default (JObj ∅) (trips_of w !! trip_id))]>
      (trips_of w).
Proof. unfold trips_of. simpl. by rewrite lookup_insert_eq. Qed.

Lemma Query_get_eq child value w :
  Query_get ["trips"] child value w
  = (Returns (matching w child value), sent (ReqQuery ["trips"] child value) w).
Proof.
  unfold Query_get, matching, trips_of. simpl.
  by destruct (children (db w) !! "trips").
Qed.

(** A query returns the stored trips, each once, whose field [child] is
    the string asked for. *)
Lemma elem_of_matching w child value trip_id trip_data :
  (trip_id, trip_data) ∈ matching w child value ↔
  stored_trip w trip_id = Some (JObj trip_data) ∧
  trip_data !! child = Some (JStr value).
Proof.
  unfold matching. rewrite stored_trip_eq, list_elem_of_fmap.
  setoid_rewrite merge_sort_Permutation. split.
  - intros [[k v] [[= -> ->] [Hm Hin]%list_elem_of_filter]].
    apply elem_of_map_to_list in Hin. unfold matches, eq_str in Hm. simpl in *.
    destruct v as [| | |d]; simpl in *; try (rewrite lookup_empty in Hm; done).
    split; [done|].
    destruct (d !! child) as [[x| | |]|]; try done.
    by apply Is_true_true, String.eqb_eq in Hm as ->.
  - intros [Hin Hc]. exists (trip_id, JObj trip_data). split; [done|].
    apply list_elem_of_filter. split; [|by apply elem_of_map_to_list].
    unfold matches, eq_str. simpl. rewrite Hc. apply Is_true_true, String.eqb_refl.
Qed.

Lemma NoDup_matching w child value : NoDup (matching w child value).*1.
Proof.
  unfold matching. rewrite <- list_fmap_compose.
  eapply (NoDup_fmap_2_strong fst);
    [|rewrite merge_sort_Permutation; apply NoDup_filter, NoDup_map_to_list].
  intros [k1 v1] [k2 v2] H1 H2. rewrite merge_sort_Permutation in H1, H2.
  revert H1 H2.
  intros [_ H1%elem_of_map_to_list]%list_elem_of_filter
    [_ H2%elem_of_map_to_list]%list_elem_of_filter; simpl; intros <-.
  rewrite H1 in H2. by injection H2 as ->.
Qed.

Lemma matching_functional w child value trip_id t1 t2 :
  (trip_id, t1) ∈ matching w child value →
  (trip_id, t2) ∈ matching w child value → t1 = t2.
Proof.
  intros [H1 _]%elem_of_matching [H2 _]%elem_of_matching.
  rewrite H1 in H2. by injection H2.
Qed.

(** ** The loop of get_trip_history *)

Lemma now_warn item w : now (warn item w) = now w ∧ now_ist (warn item w) = now_ist w.
Proof. unfold warn. by repeat case_match. Qed.

Lemma now_turn w item : now (turn w item) = now w ∧ now_ist (turn w item) = now_ist w.
Proof.
  unfold turn, expire. destruct (now_warn item w) as [H1 H2]. by case_match.
Qed.

Lemma reported_now w w' item : now w' = now w → reported w' item = reported w item.
Proof. intros H. unfold reported, due. by rewrite H. Qed.

Lemma due_now w w' trip_data : now w' = now w → due w' trip_data = due w trip_data.
Proof. intros H. unfold due. by rewrite H. Qed.

Lemma history_loop_eq items acc w :
  if forallb (λ item, well_formed_status item.2) items
  then for_in items (λ '(trip_id, trip_data), format_trip trip_id trip_data) acc w
       = (Returns (acc ++ (reported w <$> items)), foldl turn w items)
  else ∃ w', for_in items (λ '(trip_id, trip_data), format_trip trip_id trip_data) acc w
             = (Raises AttributeError, w').
Proof.
  revert acc w. induction items as [|[trip_id trip_data] items IH]; intros acc w; simpl.
  - by rewrite app_nil_r.
  - unfold bind. rewrite format_trip_eq.
    destruct (well_formed_status trip_data); simpl; [|eauto].
    specialize (IH (acc ++ [reported w (trip_id, trip_data)]) (turn w (trip_id, trip_data))).
    destruct (forallb _ items); [|done].
    rewrite IH, <- app_assoc. simpl.
    rewrite (list_fmap_ext (reported (turn w (trip_id, trip_data))) (reported w)); [done|].
    intros i item _. apply reported_now, now_turn.
Qed.

Lemma get_trip_history_eq email authorization w :
  unauthorized authorization = false →
  let items := matching w "customer_email" email in
  if forallb (λ item, well_formed_status item.2) items
  then get_trip_history email authorization w
       = (Returns (reported w <$> items),
          foldl turn (sent (ReqQuery ["trips"] "customer_email" email) w) items)
  else ∃ d w', get_trip_history email authorization w
               = (Raises (HTTPException 500 d), w').
Proof.
  intros Hu items. unfold get_trip_history. rewrite Hu. unfold try_except.
  rewrite (bind_returns _ _ _ _ _ (Query_get_eq "customer_email" email w)).
  fold items.
  pose proof (history_loop_eq items [] (sent (ReqQuery ["trips"] "customer_email" email) w))
    as Hloop.
  destruct items as [|item items]; [done|].
  destruct (forallb _ (item :: items)).
  - by rewrite Hloop.
  - destruct Hloop as [w' ->]. unfold print, bind, raise. eauto.
Qed.

(** A matched trip whose status is no object ends the request: the
    AttributeError of the lookup is caught by the outer handler. *)
Lemma get_trip_history_fails email authorization w :
  unauthorized authorization = false →
  forallb (λ item, well_formed_status item.2) (matching w "customer_email" email) = false →
  ∃ w', get_trip_history email authorization w
        = (Raises (HTTPException 500
                     (StrOf "Failed to fetch trip history: " AttributeError)), w').
Proof.
  intros Hu Hwf. unfold get_trip_history. rewrite Hu. unfold try_except.
  rewrite (bind_returns _ _ _ _ _ (Query_get_eq "customer_email" email w)).
  pose proof (history_loop_eq (matching w "customer_email" email) []
                (sent (ReqQuery ["trips"] "customer_email" email) w)) as Hloop.
  rewrite Hwf in Hloop. destruct Hloop as [w' Hloop].
  destruct (matching w "customer_email" email) as [|item items] eqn:Hitems; [done|].
  rewrite Hloop. unfold print, bind, raise. eauto.
Qed.

(** What the turns of the loop leave in the world. *)
Lemma stdout_turn w item : stdout (turn w item) = stdout w ++ warnings item.
Proof.
  unfold turn, expire, warn, warnings.
  repeat case_match; simpl; by rewrite ?app_nil_r.
Qed.

Lemma stdout_turns items w :
  stdout (foldl turn w items) = stdout w ++ mjoin (warnings <$> items).
Proof.
  revert w. induction items as [|item items IH]; intros w; simpl.
  - by rewrite app_nil_r.
  - by rewrite IH, stdout_turn, app_assoc.
Qed.

Lemma trips_of_turn w item trip_id :
  trip_id ≠ item.1 ∨ due w item.2 = false →
  trips_of (turn w item) !! trip_id = trips_of w !! trip_id.
Proof.
  intros H. unfold turn, expire.
  rewrite (due_now w (warn item w)) by apply now_warn.
  assert (trips_of (warn item w) = trips_of w) as Hw.
  { unfold warn. by repeat case_match. }
  destruct (due w item.2) eqn:Hdue; [|by rewrite Hw].
  destruct H as [Hne|]; [|done].
  change (trips_of (sent ?r ?w)) with (trips_of w).
  by rewrite trips_of_patch_status, lookup_insert_ne, Hw.
Qed.

Lemma trips_of_turns items w trip_id :
  (∀ item, item ∈ items → trip_id ≠ item.1 ∨ due w item.2 = false) →
  trips_of (foldl turn w items) !! trip_id = trips_of w !! trip_id.
Proof.
  revert w. induction items as [|item items IH]; intros w H; simpl; [done|].
  rewrite IH.
  - apply trips_of_turn, H. by left.
  - intros item' Hin. rewrite (due_now w) by apply now_turn. apply H. by right.
Qed.

(** A trip whose date yields no datetime is never due. *)
Lemma not_due_without_date w trip_data :
  booking_date_of trip_data = None → due w trip_data = false.
Proof. intros H. unfold due. by rewrite H. Qed.

Lemma fails_to_parse_spec trip_id trip_data e :
  fails_to_parse (trip_data !! "date") e →
  booking_date_of trip_data = None ∧
  warnings (trip_id, trip_data) = [PInvalidDate trip_id (trip_data !! "date") e].
Proof.
  intros (Htruthy & _ & Hraise). unfold booking_date_of, warnings. simpl.
  by rewrite Htruthy, Hraise.
Qed.




(** ** find_nearby_trips *)

Lemma stored_pending_spec item :
  stored_pending item = true ↔ status_field item.2 "status" = Some (JStr "pending").
Proof.
  unfold stored_pending, eq_str.
  destruct (status_field item.2 "status") as [[x| | |]|]; try (split; done).
  rewrite String.eqb_eq. split; [by intros ->|by intros [= ->]].
Qed.

Lemma nearby_turn_eq trip_id trip_data (acc : list nearby_trip) w :
  (status <- status_get (Some (JObj trip_data)) "status" None ;;
   if eq_str status "pending"
   then ret (acc ++
             [ mkNearbyTrip trip_id
                 (trip_data !! "customer_email")
                 (trip_data !! "from_location")
                 (trip_data !! "to_location")
                 (trip_data !! "date")
                 (trip_data !! "created_at") ])
   else ret acc) w
  = if well_formed_status trip_data
    then (Returns (if stored_pending (trip_id, trip_data)
                   then acc ++ [summary (trip_id, trip_data)]
                   else acc), w)
    else (Raises AttributeError, w).
Proof.
  unfold bind. rewrite status_get_eq.
  destruct (well_formed_status trip_data); [|done].
  unfold stored_pending. simpl.
  by destruct (status_field trip_data "status") as [[x| | |]|]; simpl;
    try destruct (String.eqb x "pending").
Qed.

Lemma nearby_loop_eq items acc w :
  let body := λ '(trip_id, trip_data) (nearby_trips : list nearby_trip),
    status <- status_get (Some (JObj trip_data)) "status" None ;;
    if eq_str status "pending"
    then ret (nearby_trips ++
              [ mkNearbyTrip trip_id
                  (trip_data !! "customer_email")
                  (trip_data !! "from_location")
                  (trip_data !! "to_location")
                  (trip_data !! "date")
                  (trip_data !! "created_at") ])
    else ret nearby_trips in
  if forallb (λ item, well_formed_status item.2) items
  then for_in items body acc w
       = (Returns (acc ++ (summary <$> filter (λ item, stored_pending item) items)), w)
  else ∃ w', for_in items body acc w = (Raises AttributeError, w').
Proof.
  intros body. revert acc.
  induction items as [|[trip_id trip_data] items IH]; intros acc.
  - simpl. by rewrite app_nil_r.
  - assert (for_in ((trip_id, trip_data) :: items) body acc w
            = if well_formed_status trip_data
              then for_in items body
                     (if stored_pending (trip_id, trip_data)
                      then acc ++ [summary (trip_id, trip_data)]
                      else acc) w
              else (Raises AttributeError, w)) as Hstep.
    { simpl. unfold bind at 1. unfold body at 1. rewrite nearby_turn_eq.
      by destruct (well_formed_status trip_data). }
    cbn [forallb snd]. rewrite Hstep. clear Hstep.
    destruct (well_formed_status trip_data); simpl; [|eauto].
    destruct (stored_pending (trip_id, trip_data)) eqn:Hp.
    + rewrite filter_cons_True by by apply Is_true_true.
      specialize (IH (acc ++ [summary (trip_id, trip_data)])).
      destruct (forallb _ items); [|done].
      rewrite IH. by rewrite <- app_assoc.
    + rewrite filter_cons_False by by apply Is_true_false.
      specialize (IH acc). by destruct (forallb _ items).
Qed.

Lemma find_nearby_trips_eq from_location date authorization w :
  unauthorized authorization = false →
  let items := matching w "date" date in
  if forallb (λ item, well_formed_status item.2) items
  then find_nearby_trips from_location date authorization w
       = (Returns (summary <$> filter (λ item, stored_pending item) items),
          sent (ReqQuery ["trips"] "date" date) w)
  else ∃ d w', find_nearby_trips from_location date authorization w
               = (Raises (HTTPException 500 d), w').
Proof.
  intros Hu items. unfold find_nearby_trips. rewrite Hu. unfold try_except.
  rewrite (bind_returns _ _ _ _ _ (Query_get_eq "date" date w)).
  fold items.
  pose proof (nearby_loop_eq items [] (sent (ReqQuery ["trips"] "date" date) w)) as Hloop.
  destruct items as [|item items]; [done|].
  cbv zeta in Hloop.
  destruct (forallb _ (item :: items)).
  - by rewrite Hloop.
  - destruct Hloop as [w' ->]. unfold raise. eauto.
Qed.

Lemma find_nearby_trips_returns from_location date authorization w trips w' :
  find_nearby_trips from_location date authorization w = (Returns trips, w') →
  trips = summary <$> filter (λ item, stored_pending item) (matching w "date" date) ∧
  w' = sent (ReqQuery ["trips"] "date" date) w.
Proof.
  intros H. destruct (unauthorized authorization) eqn:Hu.
  { unfold find_nearby_trips in H. by rewrite Hu in H. }
  pose proof (find_nearby_trips_eq from_location date authorization w Hu) as Heq.
  simpl in Heq. destruct (forallb _ _).
  - rewrite Heq in H. by injection H as <- <-.
  - destruct Heq as (d & w1 & Heq). rewrite Heq in H. discriminate H.
Qed.

Lemma elem_of_find_nearby_trips from_location date authorization w trips w' n :
  find_nearby_trips from_location date authorization w = (Returns trips, w') →
  n ∈ trips ↔
  ∃ trip_id trip_data,
    stored_trip w trip_id = Some (JObj trip_data) ∧
    trip_data !! "date" = Some (JStr date) ∧
    status_field trip_data "status" = Some (JStr "pending") ∧
    n = summary (trip_id, trip_data).
Proof.
  intros [-> ->]%find_nearby_trips_returns. rewrite list_elem_of_fmap. split.
  - intros [[trip_id trip_data] [-> [Hp Hin]%list_elem_of_filter]].
    apply elem_of_matching in Hin as [Hstored Hdate].
    apply Is_true_true, stored_pending_spec in Hp.
    exists trip_id, trip_data. done.
  - intros (trip_id & trip_data & Hstored & Hdate & Hp & ->).
    exists (trip_id, trip_data). split; [done|].
    apply list_elem_of_filter. split.
    + by apply Is_true_true, stored_pending_spec.
    + by apply elem_of_matching.
Qed.



Lemma get_trip_history_returns email authorization w trips w' :
  get_trip_history email authorization w = (Returns trips, w') →
  trips = reported w <$> matching w "customer_email" email ∧
  w' = foldl turn (sent (ReqQuery ["trips"] "customer_email" email) w)
         (matching w "customer_email" email).
Proof.
  intros H. destruct (unauthorized authorization) eqn:Hu.
  { unfold get_trip_history in H. by rewrite Hu in H. }
  pose proof (get_trip_history_eq email authorization w Hu) as Heq.
  simpl in Heq. destruct (forallb _ _).
  - rewrite Heq in H. by injection H as <- <-.
  - destruct Heq as (d & w1 & Heq). rewrite Heq in H. discriminate H.
Qed.



(** ** edit_trip and delete_trip *)

Lemma refused_when_not_pending w trip_id trip_data s :
  stored_trip w trip_id = Some (JObj trip_data) →
  status_field trip_data "status" = Some (JStr s) →
  s ≠ "pending" →
  ∀ (k : M confirmation) refusal,
    (trip_data' <- Reference_get (trip_path trip_id) ;;
     if negb (truthy_opt trip_data')
     then raise (HTTPException 404 (Lit "Trip not found"))
     else
       status <- status_get trip_data' "status" None ;;
       if negb (eq_str status "pending") then raise refusal else k) w
    = (Raises refusal, sent (ReqGet (trip_path trip_id)) w).
Proof.
  intros Hstored Hstatus Hs k refusal.
  assert (trip_data ≠ ∅) as Hne.
  { intros ->. apply status_field_Some in Hstatus as (st & Hst & _).
    by rewrite lookup_empty in Hst. }
  assert (well_formed_status trip_data = true) as Hwf.
  { apply status_field_Some in Hstatus as (st & Hst & _).
    unfold well_formed_status. by rewrite Hst. }
  assert (truthy_opt (Some (JObj trip_data)) = true) as Htruthy.
  { simpl. by rewrite bool_decide_eq_false_2. }
  rewrite (bind_returns (Reference_get _) _ w (Some (JObj trip_data)) (sent (ReqGet (trip_path trip_id)) w))
    by (unfold Reference_get; by rewrite <- Hstored).
  rewrite Htruthy. cbn [negb].
  unfold bind. rewrite status_get_eq, Hwf, Hstatus. cbn [eq_str].
  apply String.eqb_neq in Hs. by rewrite Hs.
Qed.



(** The successful paths of the sample: a pending trip is edited in
    place, keeping its status, and a pending trip is removed. *)
Example edit_trip_pending :
  let r := edit_trip "b1" (mkTripUpdate "Cuttack" "Konark" "17/06/2025")
             (Some "Bearer token") sample_world in
  r.1 = Returns (mkConfirmation "Trip updated successfully") ∧
  get_path ["trips"; "b1"; "to_location"] (db r.2) = Some (JStr "Konark") ∧
  get_path ["trips"; "b1"; "date"] (db r.2) = Some (JStr "17/06/2025") ∧
  get_path ["trips"; "b1"; "updated_at"] (db r.2) = Some (JStr "2025-06-15T10:00:00+05:30") ∧
  get_path ["trips"; "b1"; "status"] (db r.2)
  = get_path ["trips"; "b1"; "status"] (db sample_world).
Proof. vm_compute. done. Qed.

Example delete_trip_pending :
  let r := delete_trip "b1" (Some "Bearer token") sample_world in
  r.1 = Returns (mkConfirmation "Trip deleted successfully") ∧
  stored_trip r.2 "b1" = None ∧
  stored_trip r.2 "b2" = stored_trip sample_world "b2".
Proof. vm_compute. done. Qed.

(** ** Expiry on read *)

(** C2. A pending trip dated on the current date is rewritten all the
    same.  In the sample, read on 15 June 2025 at 10:00, trip b1 is
    pending and dated 15/06/2025: its date is not before the current
    date, yet get_trip_history stores regret with the India Standard
    Time stamp and reports regret.  The comparison is between midnight
    of the trip's date and the current instant. *)
Theorem todays_pending_trip_is_expired :
  let b1 := children (sample_trip "asha@example.in" "15/06/2025"
                        (Some (<["status" := JStr "pending"]> ∅))) in
  let r := get_trip_history "asha@example.in" (Some "Bearer token") sample_world in
  stored_trip sample_world "b1" = Some (JObj b1) ∧
  status_field b1 "status" = Some (JStr "pending") ∧
  strptime_value (b1 !! "date") = Returns (mkDatetime 2025 6 15 0 0 0 0) ∧
  date_ltb (mkDatetime 2025 6 15 0 0 0 0) (now sample_world) = false ∧
  datetime_ltb (mkDatetime 2025 6 15 0 0 0 0) (now sample_world) = true ∧
  (∃ trips, r.1 = Returns trips ∧
     ∃ t, t ∈ trips ∧ ft_booking_id t = "b1" ∧
          fs_status (ft_status t) = Some (JStr "regret")) ∧
  get_path ["trips"; "b1"; "status"; "status"] (db r.2) = Some (JStr "regret") ∧
  get_path ["trips"; "b1"; "status"; "updated_at"] (db r.2)
  = Some (JStr "2025-06-15T10:00:00+05:30").
Proof.
  intros b1 r. repeat split; try (vm_compute; reflexivity).
  pose proof (get_trip_history_eq "asha@example.in" (Some "Bearer token")
                sample_world eq_refl) as H.
  cbv zeta in H.
  assert (forallb (λ item, well_formed_status item.2)
            (matching sample_world "customer_email" "asha@example.in") = true) as Hwf
    by (vm_compute; reflexivity).
  rewrite Hwf in H. unfold r. rewrite H. eexists. split; [reflexivity|].
  exists (reported sample_world ("b1", b1)). split; [|split; vm_compute; reflexivity].
  apply list_elem_of_fmap. exists ("b1", b1). split; [done|].
  apply elem_of_matching. split; vm_compute; reflexivity.
Qed.

(** What get_trip_history does with a matched trip, in general: when
    the trip is due, its status sub-record receives regret and the
    stamp and it is reported as regret; otherwise the stored trip is
    untouched and reported as stored. *)
Lemma regret_update_turn w item : regret_update (turn w item) = regret_update w.
Proof. unfold regret_update. by rewrite (proj2 (now_turn w item)). Qed.

Lemma trips_of_turns_due items w trip_id trip_data :
  NoDup items.*1 →
  (trip_id, trip_data) ∈ items →
  due w trip_data = true →
  trips_of w !! trip_id = Some (JObj trip_data) →
  trips_of (foldl turn w items) !! trip_id
  = Some (patch_path ["status"] (regret_update w) (JObj trip_data)).
Proof.
  revert w. induction items as [|item items IH]; intros w Hnd Hin Hdue Hstored.
  { by apply elem_of_nil in Hin. }
  apply NoDup_cons in Hnd as [Hhead Hnd]. simpl.
  apply elem_of_cons in Hin as [<-|Hin].
  - rewrite trips_of_turns.
    + unfold turn, expire. cbn [fst snd].
      rewrite (due_now w (warn (trip_id, trip_data) w)) by apply now_warn.
      rewrite Hdue.
      change (trips_of (sent ?r ?w0)) with (trips_of w0).
      rewrite trips_of_patch_status, lookup_insert_eq.
      assert (trips_of (warn (trip_id, trip_data) w) = trips_of w) as ->.
      { unfold warn. by repeat case_match. }
      assert (regret_update (warn (trip_id, trip_data) w) = regret_update w) as ->.
      { unfold regret_update. by rewrite (proj2 (now_warn (trip_id, trip_data) w)). }
      by rewrite Hstored.
    + intros item' Hin'. left. intros ->. apply Hhead.
      apply list_elem_of_fmap. by exists item'.
  - assert (trip_id ≠ item.1) as Hne.
    { intros ->. apply Hhead. apply list_elem_of_fmap. by exists (item.1, trip_data). }
    rewrite (IH (turn w item)); [by rewrite regret_update_turn|done|done| |].
    + rewrite (due_now w) by apply now_turn. done.
    + rewrite trips_of_turn by by left. done.
Qed.

Lemma expiry_rule email authorization w trips w' trip_id trip_data :
  get_trip_history email authorization w = (Returns trips, w') →
  stored_trip w trip_id = Some (JObj trip_data) →
  trip_data !! "customer_email" = Some (JStr email) →
  if due w trip_data
  then stored_trip w' trip_id
       = Some (patch_path ["status"] (regret_update w) (JObj trip_data)) ∧
       formatted trip_id (regretted trip_data) ∈ trips
  else stored_trip w' trip_id = Some (JObj trip_data) ∧
       formatted trip_id trip_data ∈ trips.
Proof.
  intros [-> ->]%get_trip_history_returns Hstored Hemail.
  assert ((trip_id, trip_data) ∈ matching w "customer_email" email) as Hin
    by by apply elem_of_matching.
  assert (reported w (trip_id, trip_data)
          ∈ reported w <$> matching w "customer_email" email) as Hrep.
  { apply list_elem_of_fmap. by exists (trip_id, trip_data). }
  unfold reported in Hrep. simpl in Hrep.
  rewrite stored_trip_eq in *.
  destruct (due w trip_data) eqn:Hdue; (split; [|done]).
  - by apply (trips_of_turns_due _ (sent _ w)); [apply NoDup_matching|..].
  - rewrite trips_of_turns; [done|].
    intros [k t] Hitem. simpl. destruct (decide (trip_id = k)) as [<-|]; [right|by left].
    rewrite (due_now w) by done.
    by rewrite (matching_functional _ _ _ _ _ _ Hitem Hin).
Qed.

(** A trip is due when its date parses, midnight of that date is before
    the current instant, and its status is pending or absent. *)
Lemma due_spec w trip_data :
  due w trip_data = true ↔
  ∃ d, truthy_opt (trip_data !! "date") = true ∧
       strptime_value (trip_data !! "date") = Returns d ∧
       datetime_ltb d (now w) = true ∧
       status_or_pending trip_data = JStr "pending".
Proof.
  unfold due, booking_date_of, is_past, eq_str.
  destruct (truthy_opt (trip_data !! "date")); [|naive_solver].
  destruct (strptime_value (trip_data !! "date")) as [d|e]; [|naive_solver].
  rewrite andb_true_iff. split.
  - intros [Hlt Hp]. exists d. repeat split; [done|].
    destruct (status_or_pending trip_data); try done.
    by apply String.eqb_eq in Hp as ->.
  - intros (d' & _ & [= <-] & Hlt & ->). done.
Qed.

(** [strptime] with this format yields midnight. *)
Lemma strptime_midnight s d :
  Strptime.strptime s = Returns d →
  hour d = 0%Z ∧ minute d = 0%Z ∧ second d = 0%Z ∧ microsecond d = 0%Z.
Proof.
  unfold Strptime.strptime. intros H.
  repeat case_match; try discriminate H. by injection H as <-.
Qed.

(** Midnight of a date is before an instant of the same date as soon as
    the instant is past midnight: the comparison of the handler is not
    the comparison of the dates. *)
Lemma midnight_ltb d n :
  hour d = 0%Z → minute d = 0%Z → second d = 0%Z → microsecond d = 0%Z →
  datetime_ltb d n
  = date_ltb d n
    || (bool_decide (date_fields d = date_fields n)
        && lex_ltb [0; 0; 0; 0]%Z [hour n; minute n; second n; microsecond n]).
Proof.
  destruct d as [y m dd h mi s us], n as [y' m' dd' h' mi' s' us']. simpl.
  intros -> -> -> ->. unfold datetime_ltb, date_ltb, date_fields. simpl.
  case_bool_decide as Heq.
  - injection Heq as -> -> ->. rewrite !Z.ltb_irrefl, !Z.eqb_refl. reflexivity.
  - rewrite andb_false_l, orb_false_r.
    destruct (y <? y')%Z; [done|]. simpl.
    destruct (y =? y')%Z eqn:Hy; [|done]. simpl.
    destruct (m <? m')%Z; [done|]. simpl.
    destruct (m =? m')%Z eqn:Hm; [|done]. simpl.
    destruct (dd <? dd')%Z; [done|]. simpl.
    destruct (dd =? dd')%Z eqn:Hd; [|done].
    apply Z.eqb_eq in Hy, Hm, Hd. congruence.
Qed.

(** Had the fields been handed over as a dictionary, the write of
    update_trip_status, addressed to the trip and not to its status
    child, would put the status string in the place of the status
    sub-record. *)
Lemma update_at_trip_node_replaces_status w booking_id status stamp :
  let fields := <["status" := JStr status]> (<["updated_at" := JStr stamp]> ∅) in
  let w' := (Reference_update (trip_path booking_id) (PyDict fields) w).2 in
  get_path (status_path booking_id) (db w') = Some (JStr status).
Proof.
  intros fields w'. unfold w', Reference_update.
  rewrite bool_decide_eq_false_2 by apply insert_non_empty.
  simpl. rewrite !lookup_insert_eq. simpl. rewrite lookup_insert_eq.
  simpl. unfold fields. erewrite lookup_union_Some_l; [done|].
  by rewrite lookup_insert_eq.
Qed.

(** * Further properties of the handlers *)

(** ** What a caller can be answered *)

(** X1. Whatever the operation, the header and the store, a call ends
    with a result, a 401 or a 500: the 400 and 404 that the handlers
    raise never reach the caller, and no other exception escapes. *)
Theorem route_answers_result_401_or_500 op authorization w :
  ((∃ r, (route op authorization w).1 = Returns r) ∨
   (∃ d, (route op authorization w).1 = Raises (HTTPException 401 d)) ∨
   (∃ d, (route op authorization w).1 = Raises (HTTPException 500 d))) ∧
  (∀ d, (route op authorization w).1 ≠ Raises (HTTPException 400 d)) ∧
  (∀ d, (route op authorization w).1 ≠ Raises (HTTPException 404 d)).
Proof.
  assert ((∃ r, (route op authorization w).1 = Returns r) ∨
          (∃ d, (route op authorization w).1 = Raises (HTTPException 401 d)) ∨
          (∃ d, (route op authorization w).1 = Raises (HTTPException 500 d))) as H.
  { destruct (unauthorized authorization) eqn:Hu.
    - right. left. rewrite (route_unauthorized op authorization w Hu).
      unfold invalid_authorization. eauto.
    - destruct (route_authorized op authorization w Hu) as [[?|?] _]; auto. }
  split; [exact H|].
  split; intros d Hd; rewrite Hd in H;
    destruct H as [[r H]|[[d' H]|[d' H]]]; discriminate H.
Qed.

Lemma authorized_Bearer token : unauthorized (Some ("Bearer " +:+ token)) = false.
Proof.
  destruct (unauthorized (Some ("Bearer " +:+ token))) eqn:H; [|done].
  apply unauthorized_spec in H as [H|(a & [= <-] & H)]; [discriminate H|].
  destruct H. by exists token.
Qed.

Lemma route_depends_on_check op a1 a2 w :
  unauthorized a1 = unauthorized a2 → route op a1 w = route op a2 w.
Proof.
  intros H. destruct op; simpl; unfold fmap_M, bind;
    unfold get_trip_history, update_trip_status, find_nearby_trips,
      edit_trip, delete_trip; by rewrite H.
Qed.

(** X2. The token is never examined: two headers that both start with
    "Bearer " get the same answer and leave the same world, on every
    operation. *)
Theorem bearer_token_is_not_examined op token1 token2 w :
  route op (Some ("Bearer " +:+ token1)) w = route op (Some ("Bearer " +:+ token2)) w.
Proof. apply route_depends_on_check. by rewrite !authorized_Bearer. Qed.

(** ** edit_trip and delete_trip, case by case *)

(** The checks that edit_trip and delete_trip share, as one case
    analysis on the stored trip. *)
Lemma pending_guard_eq w trip_id (k : M confirmation) refusal :
  (trip_data <- Reference_get (trip_path trip_id) ;;
   if negb (truthy_opt trip_data)
   then raise (HTTPException 404 (Lit "Trip not found"))
   else
     status <- status_get trip_data "status" None ;;
     if negb (eq_str status "pending") then raise refusal else k) w
  = let w1 := sent (ReqGet (trip_path trip_id)) w in
    match stored_trip w trip_id with
    | Some (JObj trip_data) =>
        if bool_decide (trip_data = ∅)
        then (Raises (HTTPException 404 (Lit "Trip not found")), w1)
        else if well_formed_status trip_data
             then if stored_pending (trip_id, trip_data) then k w1
                  else (Raises refusal, w1)
             else (Raises AttributeError, w1)
    | Some v =>
        if truthy v then (Raises AttributeError, w1)
        else (Raises (HTTPException 404 (Lit "Trip not found")), w1)
    | None => (Raises (HTTPException 404 (Lit "Trip not found")), w1)
    end.
Proof.
  rewrite (bind_returns (Reference_get _) _ w (stored_trip w trip_id)
             (sent (ReqGet (trip_path trip_id)) w)) by done.
  cbv zeta. destruct (stored_trip w trip_id) as [[s|n|b|trip_data]|]; simpl; try done.
  - destruct (negb (String.eqb s "")); simpl; done.
  - destruct (negb (n =? 0)%Z); simpl; done.
  - destruct b; simpl; done.
  - case_bool_decide; simpl; [done|].
    unfold bind. rewrite status_get_eq.
    destruct (well_formed_status trip_data); [|done].
    unfold stored_pending. simpl.
    assert (match status_field trip_data "status" with
            | Some x => Some x
            | None => None
            end = status_field trip_data "status") as ->
      by by destruct (status_field trip_data "status").
    by destruct (eq_str (status_field trip_data "status") "pending").
Qed.

Lemma stored_pending_guard trip_id trip_data :
  status_field trip_data "status" = Some (JStr "pending") →
  bool_decide (trip_data = ∅) = false ∧
  well_formed_status trip_data = true ∧
  stored_pending (trip_id, trip_data) = true.
Proof.
  intros Hstatus. pose proof Hstatus as (st & Hst & _)%status_field_Some.
  split; [|split].
  - apply bool_decide_eq_false_2. intros ->. by rewrite lookup_empty in Hst.
  - unfold well_formed_status. by rewrite Hst.
  - by apply stored_pending_spec.
Qed.

Lemma trips_of_patch_trip w trip_id upd :
  trips_of (stored (patch_path (trip_path trip_id) upd (db w)) w)
  = <[trip_id := JObj (upd ∪ children (default (JObj ∅) (trips_of w !! trip_id)))]>
      (trips_of w).
Proof. unfold trips_of. simpl. by rewrite lookup_insert_eq. Qed.

Lemma trips_of_delete_trip w trip_id :
  trips_of (stored (delete_path (trip_path trip_id) (db w)) w)
  = delete trip_id (trips_of w).
Proof.
  unfold trips_of. simpl.
  destruct (db w) as [| | |d]; simpl; try (rewrite lookup_empty; simpl; by rewrite delete_empty).
  destruct (d !! "trips") as [c|] eqn:Hc; simpl.
  - rewrite lookup_insert_eq. simpl.
    destruct c; simpl; by rewrite ?delete_empty.
  - rewrite Hc. simpl. by rewrite delete_empty.
Qed.

Lemma edit_write_eq trip_id update_data w :
  (stamp <- datetime_now_ist_isoformat ;;
   Reference_update (trip_path trip_id)
     (PyDict (<["from_location" := JStr (from_location update_data)]>
             (<["to_location" := JStr (to_location update_data)]>
             (<["date" := JStr (date update_data)]>
             (<["updated_at" := JStr stamp]> ∅))))) ;;;
   ret (mkConfirmation "Trip updated successfully")) w
  = (Returns (mkConfirmation "Trip updated successfully"),
     sent (ReqPatch (trip_path trip_id) (edit_fields update_data (now_ist w)))
       (stored (patch_path (trip_path trip_id)
                  (edit_fields update_data (now_ist w)) (db w)) w)).
Proof.
  unfold datetime_now_ist_isoformat, Reference_update, bind, ret.
  by rewrite bool_decide_eq_false_2 by apply insert_non_empty.
Qed.





(** X5. edit_trip and delete_trip on a booking id that is a plain key
    and resolves to no trip end with a 500 whose detail embeds the 404
    "Trip not found"; the store is read once and not written. *)
Theorem edit_delete_unknown_trip trip_id update_data authorization w :
  unauthorized authorization = false →
  plain_key trip_id = true →
  stored_trip w trip_id = None →
  (∃ w',
     edit_trip trip_id update_data authorization w
     = (Raises (HTTPException 500
                  (StrOf "Failed to update trip: "
                     (HTTPException 404 (Lit "Trip not found")))), w') ∧
     db w' = db w ∧ requests w' = requests w ++ [ReqGet (trip_path trip_id)]) ∧
  (∃ w',
     delete_trip trip_id authorization w
     = (Raises (HTTPException 500
                  (StrOf "Failed to delete trip: "
                     (HTTPException 404 (Lit "Trip not found")))), w') ∧
     db w' = db w ∧ requests w' = requests w ++ [ReqGet (trip_path trip_id)]).
Proof.
  intros Hu _ Hnone. unfold edit_trip, delete_trip. rewrite Hu. unfold try_except.
  rewrite !pending_guard_eq, Hnone. cbv zeta.
  unfold print, bind, raise. split; eauto.
Qed.

Lemma edit_delete_unknown_trip_witness :
  unauthorized (Some "Bearer token") = false ∧
  plain_key "b9" = true ∧
  stored_trip sample_world "b9" = None ∧
  (∃ w',
     edit_trip "b9" (mkTripUpdate "Cuttack" "Konark" "17/06/2025")
       (Some "Bearer token") sample_world
     = (Raises (HTTPException 500
                  (StrOf "Failed to update trip: "
                     (HTTPException 404 (Lit "Trip not found")))), w') ∧
     db w' = db sample_world ∧
     requests w' = requests sample_world ++ [ReqGet (trip_path "b9")]) ∧
  (∃ w',
     delete_trip "b9" (Some "Bearer token") sample_world
     = (Raises (HTTPException 500
                  (StrOf "Failed to delete trip: "
                     (HTTPException 404 (Lit "Trip not found")))), w') ∧
     db w' = db sample_world ∧
     requests w' = requests sample_world ++ [ReqGet (trip_path "b9")]).
Proof.
  split; [reflexivity|]. split; [reflexivity|]. split; [reflexivity|].
  apply edit_delete_unknown_trip; reflexivity.
Defined.



(** ** get_trip_history: the list, the store and the requests *)

Lemma forallb_elem_of {A} (f : A → bool) (l : list A) :
  forallb f l = true ↔ ∀ x, x ∈ l → f x = true.
Proof.
  rewrite forallb_forall. split; intros H x Hx; apply H; by apply list_elem_of_In.
Qed.

Lemma eq_str_true v s : eq_str v s = true ↔ v = Some (JStr s).
Proof.
  unfold eq_str. destruct v as [[x| | |]|]; try (split; done).
  rewrite String.eqb_eq. split; [by intros ->|by intros [= ->]].
Qed.

Lemma get_trip_history_well_formed email authorization w trips w' :
  get_trip_history email authorization w = (Returns trips, w') →
  unauthorized authorization = false ∧
  ∀ trip_id trip_data,
    stored_trip w trip_id = Some (JObj trip_data) →
    trip_data !! "customer_email" = Some (JStr email) →
    well_formed_status trip_data = true.
Proof.
  intros H. destruct (unauthorized authorization) eqn:Hu.
  { unfold get_trip_history in H. by rewrite Hu in H. }
  split; [done|]. intros trip_id trip_data Hstored Hemail.
  pose proof (get_trip_history_eq email authorization w Hu) as Heq.
  simpl in Heq.
  destruct (forallb _ (matching w "customer_email" email)) eqn:Hwf.
  - rewrite forallb_elem_of in Hwf.
    apply (Hwf (trip_id, trip_data)). by apply elem_of_matching.
  - destruct Heq as (d & w1 & Heq). rewrite Heq in H. discriminate H.
Qed.

(** The stored trips after a read, one by one. *)
Lemma stored_after_read email authorization w trips w' trip_id :
  get_trip_history email authorization w = (Returns trips, w') →
  stored_trip w' trip_id =
  match stored_trip w trip_id with
  | Some (JObj trip_data) =>
      if eq_str (trip_data !! "customer_email") email && due w trip_data
      then Some (patch_path ["status"] (regret_update w) (JObj trip_data))
      else Some (JObj trip_data)
  | other => other
  end.
Proof.
  intros Hret.
  assert (∀ t, stored_trip w trip_id = Some (JObj t) →
               t !! "customer_email" = Some (JStr email) →
               stored_trip w' trip_id
               = if due w t
                 then Some (patch_path ["status"] (regret_update w) (JObj t))
                 else Some (JObj t)) as Hmatched.
  { intros t Hstored Hemail.
    pose proof (expiry_rule _ _ _ _ _ _ _ Hret Hstored Hemail) as H.
    by destruct (due w t); destruct H. }
  assert ((∀ t, stored_trip w trip_id = Some (JObj t) →
                t !! "customer_email" ≠ Some (JStr email)) →
          stored_trip w' trip_id = stored_trip w trip_id) as Hother.
  { intros Hno. apply get_trip_history_returns in Hret as [_ ->].
    rewrite !stored_trip_eq. rewrite trips_of_turns; [done|].
    intros [k t] [Hk Hemail]%elem_of_matching. left. simpl. intros <-.
    by apply (Hno t). }
  destruct (stored_trip w trip_id) as [[s|n|b|t]|] eqn:Hstored;
    try (apply Hother; intros t' [=]; done).
  destruct (eq_str (t !! "customer_email") email) eqn:Hemail; simpl.
  - apply eq_str_true in Hemail. by apply Hmatched.
  - apply Hother. intros t' [= <-] H%eq_str_true. congruence.
Qed.



(** X8. When no stored trip carries the address asked for, a plain
    value, get_trip_history returns the empty list, not an error,
    whatever the other records hold; the store receives the query and
    nothing else. *)
Theorem get_trip_history_of_an_unknown_customer email authorization w :
  unauthorized authorization = false →
  plain_value email = true →
  (∀ trip_id trip_data,
     stored_trip w trip_id = Some (JObj trip_data) →
     trip_data !! "customer_email" ≠ Some (JStr email)) →
  get_trip_history email authorization w
  = (Returns [], sent (ReqQuery ["trips"] "customer_email" email) w).
Proof.
  intros Hu _ Hnone. unfold get_trip_history. rewrite Hu. unfold try_except.
  rewrite (bind_returns _ _ _ _ _ (Query_get_eq "customer_email" email w)).
  destruct (matching w "customer_email" email) as [|[k t] items] eqn:Hm; [done|].
  assert ((k, t) ∈ matching w "customer_email" email) as Hin by (rewrite Hm; by left).
  apply elem_of_matching in Hin as [Hstored Hemail]. by destruct (Hnone k t).
Qed.

Lemma get_trip_history_of_an_unknown_customer_witness :
  unauthorized (Some "Bearer token") = false ∧
  plain_value "nobody@example.in" = true ∧
  (∀ trip_id trip_data,
     stored_trip sample_world trip_id = Some (JObj trip_data) →
     trip_data !! "customer_email" ≠ Some (JStr "nobody@example.in")) ∧
  get_trip_history "nobody@example.in" (Some "Bearer token") sample_world
  = (Returns [],
     sent (ReqQuery ["trips"] "customer_email" "nobody@example.in") sample_world).
Proof.
  assert (∀ trip_id trip_data,
            stored_trip sample_world trip_id = Some (JObj trip_data) →
            trip_data !! "customer_email" ≠ Some (JStr "nobody@example.in")) as Hnone.
  { intros trip_id trip_data Hstored Hemail.
    assert ((trip_id, trip_data)
            ∈ matching sample_world "customer_email" "nobody@example.in") as Hin
      by by apply elem_of_matching.
    vm_compute in Hin. by apply elem_of_nil in Hin. }
  split; [reflexivity|]. split; [reflexivity|]. split; [exact Hnone|].
  exact (get_trip_history_of_an_unknown_customer "nobody@example.in"
           (Some "Bearer token") sample_world eq_refl eq_refl Hnone).
Defined.

Lemma patched_status_eq upd (trip_data : gmap string json) :
  patch_path ["status"] upd (JObj trip_data)
  = JObj (<["status" := JObj (upd ∪ children (default (JObj ∅) (trip_data !! "status")))]>
            trip_data).
Proof. reflexivity. Qed.

Lemma regret_update_lookup w k :
  regret_update w !! k =
  if decide (k = "status") then Some (JStr "regret")
  else if decide (k = "updated_at") then Some (JStr (now_ist w))
  else None.
Proof. unfold regret_update. repeat case_decide; by simplify_map_eq. Qed.

Lemma status_field_patched w (trip_data : gmap string json) k :
  status_field
    (<["status" := JObj (regret_update w
                         ∪ children (default (JObj ∅) (trip_data !! "status")))]>
       trip_data) k
  = match regret_update w !! k with
    | Some v => Some v
    | None => status_field trip_data k
    end.
Proof.
  rewrite !status_field_eq, lookup_insert_eq. simpl.
  rewrite lookup_union.
  destruct (regret_update w !! k) as [v|]; simpl.
  - by destruct (children _ !! k).
  - destruct (trip_data !! "status") as [c|]; simpl.
    + by destruct (children c !! k).
    + by rewrite lookup_empty.
Qed.



Lemma requests_turn w item :
  requests (turn w item)
  = requests w ++ (if due w item.2
                   then [ReqPatch (status_path item.1) (regret_update w)]
                   else []).
Proof.
  unfold turn, expire.
  rewrite (due_now w (warn item w)) by apply now_warn.
  assert (requests (warn item w) = requests w) as Hr.
  { unfold warn. by repeat case_match. }
  assert (regret_update (warn item w) = regret_update w) as Hu.
  { unfold regret_update. by rewrite (proj2 (now_warn item w)). }
  destruct (due w item.2); simpl; by rewrite ?Hr, ?Hu, ?app_nil_r.
Qed.

Lemma expiry_patches_now w w' items :
  now w' = now w → now_ist w' = now_ist w →
  expiry_patches w' items = expiry_patches w items.
Proof.
  intros Hnow Hist. unfold expiry_patches. f_equal.
  apply list_fmap_ext. intros i item _.
  rewrite (due_now w w') by done. unfold regret_update. by rewrite Hist.
Qed.

Lemma requests_turns items w :
  requests (foldl turn w items) = requests w ++ expiry_patches w items.
Proof.
  revert w. induction items as [|item items IH]; intros w; simpl.
  - unfold expiry_patches. simpl. by rewrite app_nil_r.
  - rewrite IH, requests_turn, <- app_assoc.
    by rewrite (expiry_patches_now w) by apply now_turn.
Qed.

Lemma expiry_patches_eq w items :
  expiry_patches w items
  = (λ item, ReqPatch (status_path item.1) (regret_update w))
      <$> filter (λ item, due w item.2) items.
Proof.
  induction items as [|item items IH]; [done|].
  change (expiry_patches w (item :: items))
    with ((if due w item.2
           then [ReqPatch (status_path item.1) (regret_update w)]
           else []) ++ expiry_patches w items).
  rewrite IH. destruct (due w item.2) eqn:Hdue.
  - rewrite filter_cons_True by by apply Is_true_true. done.
  - rewrite filter_cons_False by by apply Is_true_false. done.
Qed.

(** X10. A successful get_trip_history sends the query and then exactly
    one PATCH for each matched trip that is due (its date parses,
    midnight of that date is before the current instant, its status is
    pending or absent), and none for any other trip: the patches are,
    one for one, those of a duplicate-free list of the due trips, each
    addressed to the status sub-record of its trip and carrying status
    regret and a stamp.  The address asked for is a plain value and the
    dates of the matched trips are ASCII. *)
Theorem get_trip_history_sends_the_query_and_the_patches
    email authorization w trips w' :
  plain_value email = true →
  (∀ trip_id trip_data,
     stored_trip w trip_id = Some (JObj trip_data) →
     trip_data !! "customer_email" = Some (JStr email) →
     ascii_date (trip_data !! "date") = true) →
  get_trip_history email authorization w = (Returns trips, w') →
  ∃ expired patches,
    requests w' = requests w ++ ReqQuery ["trips"] "customer_email" email :: patches ∧
    NoDup expired ∧
    (∀ trip_id, trip_id ∈ expired ↔
       ∃ trip_data,
         stored_trip w trip_id = Some (JObj trip_data) ∧
         trip_data !! "customer_email" = Some (JStr email) ∧
         due w trip_data = true) ∧
    Forall2 (λ trip_id r,
               ∃ stamp,
                 r = ReqPatch (status_path trip_id)
                       (<["status" := JStr "regret"]>
                          (<["updated_at" := JStr stamp]> ∅)))
            expired patches.
Proof.
  intros _ _ [_ ->]%get_trip_history_returns.
  set (items := matching w "customer_email" email).
  exists (filter (λ item, due w item.2) items).*1, (expiry_patches w items).
  split; [|split; [|split]].
  - rewrite requests_turns. simpl. by rewrite <- app_assoc.
  - pose proof (NoDup_matching w "customer_email" email) as Hnd. fold items in Hnd.
    clearbody items. induction items as [|item items IH]; [constructor|].
    rewrite fmap_cons in Hnd. apply NoDup_cons in Hnd as [Hhd Hnd].
    destruct (due w item.2) eqn:Hdue.
    + rewrite filter_cons_True by by apply Is_true_true.
      rewrite fmap_cons. apply NoDup_cons. split; [|by apply IH].
      intros Hin. apply Hhd. apply list_elem_of_fmap in Hin as (x & -> & Hx).
      apply list_elem_of_fmap. exists x. split; [done|].
      by apply list_elem_of_filter in Hx as [_ Hx].
    + rewrite filter_cons_False by by apply Is_true_false. by apply IH.
  - intros trip_id. rewrite list_elem_of_fmap. split.
    + intros ([k t] & -> & Hin). apply list_elem_of_filter in Hin as [Hdue Hin].
      apply elem_of_matching in Hin as [Hstored Hemail].
      exists t. simpl in *. by apply Is_true_true in Hdue.
    + intros (t & Hstored & Hemail & Hdue). exists (trip_id, t). split; [done|].
      apply list_elem_of_filter. split; [by apply Is_true_true|].
      by apply elem_of_matching.
  - rewrite expiry_patches_eq. apply Forall2_fmap, Forall_Forall2_diag, Forall_forall.
    intros item _. by exists (now_ist w).
Qed.

Lemma get_trip_history_sends_the_query_and_the_patches_witness :
  plain_value "asha@example.in" = true ∧
  (∀ trip_id trip_data,
     stored_trip sample_world trip_id = Some (JObj trip_data) →
     trip_data !! "customer_email" = Some (JStr "asha@example.in") →
     ascii_date (trip_data !! "date") = true) ∧
  ∃ trips w',
    get_trip_history "asha@example.in" (Some "Bearer token") sample_world
    = (Returns trips, w') ∧
    ∃ expired patches,
      requests w'
      = requests sample_world
        ++ ReqQuery ["trips"] "customer_email" "asha@example.in" :: patches ∧
      NoDup expired ∧
      (∀ trip_id, trip_id ∈ expired ↔
         ∃ trip_data,
           stored_trip sample_world trip_id = Some (JObj trip_data) ∧
           trip_data !! "customer_email" = Some (JStr "asha@example.in") ∧
           due sample_world trip_data = true) ∧
      Forall2 (λ trip_id r,
                 ∃ stamp,
                   r = ReqPatch (status_path trip_id)
                         (<["status" := JStr "regret"]>
                            (<["updated_at" := JStr stamp]> ∅)))
              expired patches.
Proof.
  assert (∀ trip_id trip_data,
            stored_trip sample_world trip_id = Some (JObj trip_data) →
            trip_data !! "customer_email" = Some (JStr "asha@example.in") →
            ascii_date (trip_data !! "date") = true) as Hascii.
  { intros trip_id trip_data Hstored Hemail.
    assert ((trip_id, trip_data)
            ∈ matching sample_world "customer_email" "asha@example.in") as Hin
      by by apply elem_of_matching.
    assert (forallb (λ item, ascii_date (item.2 !! "date"))
              (matching sample_world "customer_email" "asha@example.in") = true) as Hall
      by (vm_compute; reflexivity).
    rewrite forallb_elem_of in Hall. exact (Hall _ Hin). }
  split; [reflexivity|]. split; [exact Hascii|].
  pose proof (get_trip_history_eq "asha@example.in" (Some "Bearer token")
                sample_world eq_refl) as H.
  cbv zeta in H.
  assert (forallb (λ item, well_formed_status item.2)
            (matching sample_world "customer_email" "asha@example.in") = true) as Hwf
    by (vm_compute; reflexivity).
  rewrite Hwf in H. do 2 eexists. split; [exact H|].
  exact (get_trip_history_sends_the_query_and_the_patches
           "asha@example.in" _ _ _ _ eq_refl Hascii H).
Defined.

(** ** Expiry, trip by trip *)





Lemma printed_between_turns w items line :
  printed_between w (foldl turn w items) line ↔
  ∃ item, item ∈ items ∧ line ∈ warnings item.
Proof.
  unfold printed_between. rewrite stdout_turns. split.
  - intros (lines & Heq%app_inv_head & Hin). subst lines.
    apply list_elem_of_join in Hin as (l & Hl & [item [-> Hitem]]%list_elem_of_fmap).
    eauto.
  - intros (item & Hitem & Hl). eexists. split; [done|].
    apply list_elem_of_join. exists (warnings item). split; [done|].
    apply list_elem_of_fmap. eauto.
Qed.



(** ** A malformed record *)

Lemma not_well_formed trip_data v :
  trip_data !! "status" = Some v → (∀ d, v ≠ JObj d) →
  well_formed_status trip_data = false.
Proof.
  intros Hv Hscalar. unfold well_formed_status. rewrite Hv.
  destruct v as [| | |d]; try done. by destruct (Hscalar d).
Qed.

Lemma forallb_false_elem_of {A} (f : A → bool) (l : list A) x :
  x ∈ l → f x = false → forallb f l = false.
Proof.
  intros Hx Hf. destruct (forallb f l) eqn:H; [|done].
  rewrite forallb_elem_of in H. rewrite (H x Hx) in Hf. discriminate Hf.
Qed.

Lemma nearby_loop_world items acc w :
  let body := λ '(trip_id, trip_data) (nearby_trips : list nearby_trip),
    status <- status_get (Some (JObj trip_data)) "status" None ;;
    if eq_str status "pending"
    then ret (nearby_trips ++
              [ mkNearbyTrip trip_id
                  (trip_data !! "customer_email")
                  (trip_data !! "from_location")
                  (trip_data !! "to_location")
                  (trip_data !! "date")
                  (trip_data !! "created_at") ])
    else ret nearby_trips in
  (for_in items body acc w).2 = w.
Proof.
  intros body. revert acc.
  induction items as [|[trip_id trip_data] items IH]; intros acc; [done|].
  simpl. unfold bind at 1. unfold body at 1. rewrite nearby_turn_eq.
  destruct (well_formed_status trip_data); [apply IH|done].
Qed.



(** X15. find_nearby_trips only reads: whatever the outcome, an
    authorized call leaves the world as it was but for the one query it
    has sent, and an unauthorized call leaves it untouched; the result
    also does not depend on from_location, which the handler never
    uses. *)
Theorem find_nearby_trips_only_reads from_location date authorization w :
  (find_nearby_trips from_location date authorization w).2
  = (if unauthorized authorization then w
     else sent (ReqQuery ["trips"] "date" date) w) ∧
  ∀ elsewhere,
    find_nearby_trips elsewhere date authorization w
    = find_nearby_trips from_location date authorization w.
Proof.
  split; [|done].
  unfold find_nearby_trips. destruct (unauthorized authorization); [done|].
  unfold try_except.
  rewrite (bind_returns _ _ _ _ _ (Query_get_eq "date" date w)).
  pose proof (nearby_loop_world (matching w "date" date) []
                (sent (ReqQuery ["trips"] "date" date) w)) as Hworld.
  cbv zeta in Hworld.
  destruct (matching w "date" date) as [|item items]; [done|].
  destruct (for_in _ _ _ _) as [[trips|e] w']; simpl in *; by subst.
Qed.

(** ** Operations in sequence *)

Lemma stored_trip_same_store w w' trip_id :
  same_store w w' → stored_trip w' trip_id = stored_trip w trip_id.
Proof. unfold same_store, stored_trip. by intros ->. Qed.

Lemma status_or_pending_patched w (trip_data : gmap string json) :
  status_or_pending
    (<["status" := JObj (regret_update w
                         ∪ children (default (JObj ∅) (trip_data !! "status")))]>
       trip_data)
  = JStr "regret".
Proof.
  unfold status_or_pending. by rewrite status_field_patched, regret_update_lookup.
Qed.

(** What a stored trip can be after a read, given what it was. *)
Lemma stored_after_read_cases email authorization w trips w' trip_id trip_data' :
  get_trip_history email authorization w = (Returns trips, w') →
  stored_trip w' trip_id = Some (JObj trip_data') →
  ∃ trip_data,
    stored_trip w trip_id = Some (JObj trip_data) ∧
    (trip_data' = trip_data ∨
     (trip_data !! "customer_email" = Some (JStr email) ∧
      due w trip_data = true ∧
      trip_data'
      = <["status" := JObj (regret_update w
                            ∪ children (default (JObj ∅) (trip_data !! "status")))]>
          trip_data)).
Proof.
  intros Hret. rewrite (stored_after_read _ _ _ _ _ trip_id Hret).
  destruct (stored_trip w trip_id) as [[| | |t]|]; try done.
  destruct (eq_str (t !! "customer_email") email) eqn:Hemail; cbn [andb].
  - destruct (due w t) eqn:Hdue.
    + rewrite patched_status_eq. intros [= <-]. exists t. split; [done|].
      right. by apply eq_str_true in Hemail.
    + intros [= <-]. exists t. auto.
  - intros [= <-]. exists t. auto.
Qed.





Lemma guarded_returns (k : M confirmation) refusal h w trip_id c w' :
  (∀ e w1, ∃ e' w2, h e w1 = (@Raises confirmation e', w2)) →
  try_except
    (trip_data <- Reference_get (trip_path trip_id) ;;
     if negb (truthy_opt trip_data)
     then raise (HTTPException 404 (Lit "Trip not found"))
     else
       status <- status_get trip_data "status" None ;;
       if negb (eq_str status "pending") then raise refusal else k) h w
  = (Returns c, w') →
  ∃ trip_data,
    stored_trip w trip_id = Some (JObj trip_data) ∧
    status_field trip_data "status" = Some (JStr "pending") ∧
    k (sent (ReqGet (trip_path trip_id)) w) = (Returns c, w').
Proof.
  intros Hh. unfold try_except. rewrite pending_guard_eq. cbv zeta.
  assert (∀ e w1, h e w1 ≠ (Returns c, w')) as Hraise.
  { intros e w1 H. destruct (Hh e w1) as (e' & w2 & H'). congruence. }
  destruct (stored_trip w trip_id) as [[s|n|b|t]|];
    repeat match goal with
           | |- context [if ?b then _ else _] => destruct b eqn:?
           end;
    try (intros H; by apply Hraise in H).
  intros H. exists t. split; [done|]. split; [by apply (stored_pending_spec (trip_id, t))|].
  by destruct (k _) as [[c'|e] w1]; [|apply Hraise in H].
Qed.

Lemma delete_write_eq trip_id w :
  (Reference_delete (trip_path trip_id) ;;;
   ret (mkConfirmation "Trip deleted successfully")) w
  = (Returns (mkConfirmation "Trip deleted successfully"),
     sent (ReqDelete (trip_path trip_id))
       (stored (delete_path (trip_path trip_id) (db w)) w)).
Proof. reflexivity. Qed.

Lemma delete_trip_returns trip_id authorization w c w' :
  delete_trip trip_id authorization w = (Returns c, w') →
  stored_trip w' trip_id = None.
Proof.
  unfold delete_trip. destruct (unauthorized authorization); [done|].
  intros (t & _ & _ & H)%guarded_returns.
  - rewrite delete_write_eq in H. apply pair_equal_spec in H as [_ <-].
    rewrite stored_trip_eq.
    change (trips_of (sent ?r ?w0)) with (trips_of w0).
    by rewrite trips_of_delete_trip, lookup_delete_eq.
  - intros e w1. unfold print, bind, raise. eauto.
Qed.

Lemma edit_trip_returns trip_id update_data authorization w c w' :
  edit_trip trip_id update_data authorization w = (Returns c, w') →
  ∃ trip_data,
    stored_trip w trip_id = Some (JObj trip_data) ∧
    status_field trip_data "status" = Some (JStr "pending") ∧
    stored_trip w' trip_id
    = Some (JObj (edit_fields update_data (now_ist w) ∪ trip_data)).
Proof.
  unfold edit_trip. destruct (unauthorized authorization); [done|].
  intros (t & Hstored & Hstatus & H)%guarded_returns.
  - exists t. split; [done|]. split; [done|].
    rewrite edit_write_eq in H. apply pair_equal_spec in H as [_ <-].
    rewrite stored_trip_eq.
    change (trips_of (sent ?r ?w0)) with (trips_of w0).
    rewrite trips_of_patch_trip, lookup_insert_eq.
    change (trips_of (sent ?r ?w0)) with (trips_of w0).
    by rewrite <- stored_trip_eq, Hstored.
  - intros e w1. unfold print, bind, raise. eauto.
Qed.

(** X18. A deleted trip is gone for every handler: after a successful
    delete_trip, no later get_trip_history or find_nearby_trips on the
    same store lists the booking id, and a second delete_trip ends with
    the 500 that embeds the 404. *)
Theorem deleted_trip_is_gone trip_id authorization w c w' later :
  delete_trip trip_id authorization w = (Returns c, w') →
  same_store w' later →
  (∀ email authorization' trips later',
     get_trip_history email authorization' later = (Returns trips, later') →
     trip_id ∉ ft_booking_id <$> trips) ∧
  (∀ from_location date authorization' trips later',
     find_nearby_trips from_location date authorization' later = (Returns trips, later') →
     trip_id ∉ nt_booking_id <$> trips) ∧
  (∀ authorization',
     unauthorized authorization' = false →
     ∃ later',
       delete_trip trip_id authorization' later
       = (Raises (HTTPException 500
                    (StrOf "Failed to delete trip: "
                       (HTTPException 404 (Lit "Trip not found")))), later')).
Proof.
  intros Hdel%delete_trip_returns Hsame.
  assert (stored_trip later trip_id = None) as Hnone
    by by rewrite (stored_trip_same_store _ _ _ Hsame).
  split; [|split].
  - intros email authorization' trips later' [-> _]%get_trip_history_returns Hin.
    apply list_elem_of_fmap in Hin as (t & -> & [[k d] [-> Hitem]]%list_elem_of_fmap).
    apply elem_of_matching in Hitem as [Hstored _].
    change (ft_booking_id (reported later (k, d))) with k in Hnone. congruence.
  - intros from_location date authorization' trips later' Hret Hin.
    apply list_elem_of_fmap in Hin as (n & -> & Hin).
    apply (elem_of_find_nearby_trips _ _ _ _ _ _ _ Hret) in Hin
      as (k & t & Hk & _ & _ & ->).
    change (nt_booking_id (summary (k, t))) with k in Hnone. congruence.
  - intros authorization' Hu. unfold delete_trip. rewrite Hu. unfold try_except.
    rewrite pending_guard_eq, Hnone. cbv zeta. unfold print, bind, raise. eauto.
Qed.

Lemma deleted_trip_is_gone_witness :
  ∃ c w',
    delete_trip "b6" (Some "Bearer token") sample_world = (Returns c, w') ∧
    same_store w' w' ∧
    (∀ email authorization' trips later',
       get_trip_history email authorization' w' = (Returns trips, later') →
       "b6" ∉ ft_booking_id <$> trips) ∧
    (∀ from_location date authorization' trips later',
       find_nearby_trips from_location date authorization' w' = (Returns trips, later') →
       "b6" ∉ nt_booking_id <$> trips) ∧
    (∀ authorization',
       unauthorized authorization' = false →
       ∃ later',
         delete_trip "b6" authorization' w'
         = (Raises (HTTPException 500
                      (StrOf "Failed to delete trip: "
                         (HTTPException 404 (Lit "Trip not found")))), later')).
Proof.
  set (w' := sent (ReqDelete (trip_path "b6"))
               (stored (delete_path (trip_path "b6") (db sample_world))
                  (sent (ReqGet (trip_path "b6")) sample_world))).
  assert (delete_trip "b6" (Some "Bearer token") sample_world
          = (Returns (mkConfirmation "Trip deleted successfully"), w')) as H
    by (vm_compute; reflexivity).
  exists (mkConfirmation "Trip deleted successfully"), w'.
  split; [exact H|]. split; [reflexivity|].
  exact (deleted_trip_is_gone "b6" _ _ _ _ w' H eq_refl).
Defined.



(** ** update_trip_status: the driver details *)


